(** * Shallow embedding of [eccodes_grib/dataset.py]

    The dataset layer of the GRIB reader: the header index over a stream of
    messages, the coordinate builder ([enforce_unique_attributes],
    [simple_header_coordinate]), [DataVariable] construction and its dense
    array materialisation ([build_array]), the cached [DataArray.data]
    property, the dataset builder ([dict_merge],
    [build_dataset_components]), the GRIB date and time decoding
    ([from_grib_date_time], [data_date_time]) and [Variable.__eq__].

    Python exceptions become the [Err] branch of a small error monad;
    [collections.OrderedDict] becomes an association list with in-place
    update; numpy rows of float32 become lists of [spec_float] values rounded
    with [binary_round 24 128]. *)

From Stdlib Require Import ZArith List String Bool Lia.
From Stdlib Require Import Sorting.Sorted Sorting.Permutation.
From Stdlib Require Import Floats.SpecFloat.
Import ListNotations.
Open Scope string_scope.
Open Scope list_scope.

(** ** Exceptions and the error monad *)

Inductive exn :=
| ValueError            (* ambiguous attribute, conflicting merge, bad index *)
| KeyError              (* missing message key / dict key *)
| CoordinateNotFound    (* [CoordinateNotFound] of dataset.py *)
| StopIteration         (* [next(iter(stream))] on an empty stream *)
| TypeError
| IndexError
| DecodeError           (* no message can be decoded at an offset *)
| OverflowError.        (* a Python int that does not fit a C int *)

Inductive result (A : Type) :=
| Ok (a : A)
| Err (e : exn).
Arguments Ok {A} a.
Arguments Err {A} e.

Definition bind {A B} (r : result A) (k : A -> result B) : result B :=
  match r with
  | Ok a => k a
  | Err e => Err e
  end.

Notation "'let*' x ':=' c 'in' k" := (bind c (fun x => k))
  (at level 61, x pattern, c at next level, right associativity).

Fixpoint mapM {A B} (f : A -> result B) (l : list A) : result (list B) :=
  match l with
  | [] => Ok []
  | x :: r => let* y := f x in let* ys := mapM f r in Ok (y :: ys)
  end.

(** ** Header values

    GRIB header keys read by the index are integers or strings; a key that a
    message does not carry is stored as the string ['undef']. *)

Inductive value :=
| VInt (z : Z)
| VStr (s : string).

Definition value_eqb (a b : value) : bool :=
  match a, b with
  | VInt x, VInt y => Z.eqb x y
  | VStr x, VStr y => String.eqb x y
  | _, _ => false
  end.

Definition undef : value := VStr "undef".

Fixpoint header_eqb (h1 h2 : list value) : bool :=
  match h1, h2 with
  | [], [] => true
  | a :: r, b :: s => value_eqb a b && header_eqb r s
  | _, _ => false
  end.

(** Python's [str] of an integer, used when numpy coerces a mixed
    int / str list to a string array. *)
Fixpoint uint_to_string (u : Decimal.uint) : string :=
  match u with
  | Decimal.Nil => ""
  | Decimal.D0 r => "0" ++ uint_to_string r
  | Decimal.D1 r => "1" ++ uint_to_string r
  | Decimal.D2 r => "2" ++ uint_to_string r
  | Decimal.D3 r => "3" ++ uint_to_string r
  | Decimal.D4 r => "4" ++ uint_to_string r
  | Decimal.D5 r => "5" ++ uint_to_string r
  | Decimal.D6 r => "6" ++ uint_to_string r
  | Decimal.D7 r => "7" ++ uint_to_string r
  | Decimal.D8 r => "8" ++ uint_to_string r
  | Decimal.D9 r => "9" ++ uint_to_string r
  end.

Definition py_str (v : value) : string :=
  match v with
  | VStr s => s
  | VInt z =>
      match Z.to_int z with
      | Decimal.Pos u => uint_to_string u
      | Decimal.Neg u => "-" ++ uint_to_string u
      end
  end.

Definition is_int (v : value) : bool := match v with VInt _ => true | _ => false end.

(** [np.array(values).tolist()]: a list of only ints or only strings is kept,
    a mixed one becomes a string array. *)
Definition np_array (vs : list value) : list value :=
  if forallb is_int vs || forallb (fun v => negb (is_int v)) vs then vs
  else map (fun v => VStr (py_str v)) vs.

(** [list.index]: position of the first element equal to [v]. *)
Fixpoint list_index (v : value) (l : list value) : result nat :=
  match l with
  | [] => Err ValueError
  | x :: r => if value_eqb x v then Ok 0 else let* i := list_index v r in Ok (S i)
  end.

Fixpoint str_index (k : string) (l : list string) : option nat :=
  match l with
  | [] => None
  | x :: r => if String.eqb x k then Some 0
              else match str_index k r with Some i => Some (S i) | None => None end
  end.

(** ** Ordered dictionaries *)

Section OrderedDict.
Context {K V : Type} (keqb : K -> K -> bool).

Fixpoint od_get (k : K) (d : list (K * V)) : option V :=
  match d with
  | [] => None
  | (k', v) :: r => if keqb k k' then Some v else od_get k r
  end.

(** [d[k] = v]: overwrite in place, or append a new key. *)
Fixpoint od_set (k : K) (v : V) (d : list (K * V)) : list (K * V) :=
  match d with
  | [] => [(k, v)]
  | (k', v') :: r => if keqb k k' then (k', v) :: r else (k', v') :: od_set k v r
  end.

(** [d.update(u)]. *)
Definition od_update (d u : list (K * V)) : list (K * V) :=
  fold_left (fun acc kv => od_set (fst kv) (snd kv) acc) u d.
End OrderedDict.

(** ** Messages (the record accessor)

    A message of the GRIB stream: its byte offset, its header keys, and the
    decoded ['values'], ['latitudes'] and ['longitudes'] arrays (doubles). *)

Record message := {
  m_offset : Z;
  m_keys : list (string * value);
  m_values : list spec_float;
  m_latitudes : option (list spec_float);
  m_longitudes : option (list spec_float)
}.

(** [message[key]]. *)
Definition message_get (m : message) (k : string) : result value :=
  match od_get String.eqb k (m_keys m) with
  | Some v => Ok v
  | None => Err KeyError
  end.

(** [messages.Message.fromfile(file, offset=offset)]. *)
Definition message_fromfile (stream : list message) (off : Z) : result message :=
  match find (fun m => Z.eqb (m_offset m) off) stream with
  | Some m => Ok m
  | None => Err DecodeError
  end.

(** ** The header index *)

(** Modelled from the spec: [messages.Index] (the module [messages] is not
    part of the sources). An index owns its ordered [index_keys] and the
    ordered mapping [offsets] from a header tuple (values in schema order) to
    the byte offsets, in scan order, of the messages that produced it. *)
Record index := {
  index_keys : list string;
  offsets : list (list value * list Z)
}.

(** Modelled from the spec: one pass over the stream; a key a message does
    not carry degrades to ['undef']; the offset is appended to the bucket of
    its header tuple. *)
Fixpoint add_offset (h : list value) (o : Z) (d : list (list value * list Z))
  : list (list value * list Z) :=
  match d with
  | [] => [(h, [o])]
  | (h', os) :: r => if header_eqb h h' then (h', os ++ [o]) :: r
                     else (h', os) :: add_offset h o r
  end.

Definition header_of (keys : list string) (m : message) : list value :=
  map (fun k => match od_get String.eqb k (m_keys m) with
                | Some v => v
                | None => undef
                end) keys.

Definition index_fromstream (stream : list message) (keys : list string) : index :=
  {| index_keys := keys;
     offsets := fold_left (fun d m => add_offset (header_of keys m) (m_offset m) d)
                          stream [] |}.

Definition append_unique (vs : list value) (v : value) : list value :=
  if existsb (value_eqb v) vs then vs else vs ++ [v].

(** Modelled from the spec: [index[key]] is the ordered set of distinct
    values of [key] over the header tuples, in insertion order; a key outside
    the schema has no values. *)
Definition index_get (idx : index) (key : string) : list value :=
  match str_index key (index_keys idx) with
  | None => []
  | Some i => fold_left append_unique (map (fun b => nth i (fst b) undef) (offsets idx)) []
  end.

(** Modelled from the spec: [index.subindex(key=v)] keeps the buckets whose
    header has [v] at [key]; the parent is not changed. *)
Definition subindex (idx : index) (key : string) (v : value) : index :=
  {| index_keys := index_keys idx;
     offsets := filter (fun b => match str_index key (index_keys idx) with
                                 | Some i => value_eqb (nth i (fst b) undef) v
                                 | None => false
                                 end) (offsets idx) |}.

(** ** Key tables of dataset.py *)

Definition GLOBAL_ATTRIBUTES_KEYS : list string := ["edition"; "centre"; "centreDescription"].

Definition VARIABLE_ATTRIBUTES_KEYS : list string :=
  ["paramId"; "shortName"; "units"; "name"; "cfName"; "missingValue"].

Definition SPATIAL_COORDINATES_ATTRIBUTES_KEYS : list string := ["gridType"; "numberOfPoints"].

Definition GRID_TYPE_MAP : list (string * list string) := [
  ("regular_ll", ["Ni"; "iDirectionIncrementInDegrees"; "iScansNegatively";
                  "longitudeOfFirstGridPointInDegrees"; "longitudeOfLastGridPointInDegrees";
                  "Nj"; "jDirectionIncrementInDegrees"; "jPointsAreConsecutive"; "jScansPositively";
                  "latitudeOfFirstGridPointInDegrees"; "latitudeOfLastGridPointInDegrees"]);
  ("reduced_ll", ["Nj"; "jDirectionIncrementInDegrees"; "jPointsAreConsecutive"; "jScansPositively";
                  "latitudeOfFirstGridPointInDegrees"; "latitudeOfLastGridPointInDegrees";
                  "pl"]);
  ("regular_gg", ["Ni"; "iDirectionIncrementInDegrees"; "iScansNegatively";
                  "longitudeOfFirstGridPointInDegrees"; "longitudeOfLastGridPointInDegrees";
                  "N"]);
  ("lambert", ["LaDInDegrees"; "LoVInDegrees"; "iScansNegatively";
               "jPointsAreConsecutive"; "jScansPositively";
               "latitudeOfFirstGridPointInDegrees"; "latitudeOfSouthernPoleInDegrees";
               "longitudeOfFirstGridPointInDegrees"; "longitudeOfSouthernPoleInDegrees";
               "DyInMetres"; "DxInMetres"; "Latin2InDegrees"; "Latin1InDegrees"; "Ny"; "Nx"]);
  ("reduced_gg", ["N"; "pl"]);
  ("sh", ["M"; "K"; "J"])
].

Fixpoint nodup_strings (acc : list string) (l : list string) : list string :=
  match l with
  | [] => rev acc
  | k :: r => if existsb (String.eqb k) acc then nodup_strings acc r
              else nodup_strings (k :: acc) r
  end.

(** [list(set(...))]: the distinct geometry keys; Python's set order is
    arbitrary, first-occurrence order is used here. *)
Definition GRID_TYPE_KEYS : list string :=
  nodup_strings [] (List.concat (map snd GRID_TYPE_MAP)).

Definition HEADER_COORDINATES_MAP : list (string * list string) := [
  ("number", ["totalNumber"]);
  ("dataDate", []);
  ("dataTime", []);
  ("endStep", ["stepUnits"; "stepType"]);
  ("topLevel", ["typeOfLevel"])
].

Definition HEADER_COORDINATES_KEYS : list string :=
  map fst HEADER_COORDINATES_MAP ++ List.concat (map snd HEADER_COORDINATES_MAP).

Definition ALL_KEYS : list string :=
  GLOBAL_ATTRIBUTES_KEYS ++ VARIABLE_ATTRIBUTES_KEYS ++
  SPATIAL_COORDINATES_ATTRIBUTES_KEYS ++ GRID_TYPE_KEYS ++ HEADER_COORDINATES_KEYS.

(** ** Coordinate builder *)

Definition attributes := list (string * value).

(** [enforce_unique_attributes(index, attributes_keys)]. *)
Fixpoint enforce_unique_loop (idx : index) (keys : list string) (acc : attributes)
  : result attributes :=
  match keys with
  | [] => Ok acc
  | key :: rest =>
      let values := index_get idx key in
      if Nat.ltb 1 (List.length values) then Err ValueError
      else match values with
           | v :: _ => enforce_unique_loop idx rest (od_set String.eqb key v acc)
           | [] => enforce_unique_loop idx rest acc
           end
  end.

Definition enforce_unique_attributes (idx : index) (keys : list string) : result attributes :=
  enforce_unique_loop idx keys [].

(** [simple_header_coordinate(index, coordinate_key, attributes_keys)]. *)
Definition simple_header_coordinate (idx : index) (coordinate_key : string)
    (attributes_keys : list string) : result (list value * attributes) :=
  let data := index_get idx coordinate_key in
  if Nat.eqb (List.length data) 1 && value_eqb (hd undef data) undef then Err CoordinateNotFound
  else let* attrs := enforce_unique_attributes idx attributes_keys in
       Ok (data, attrs).

(** ** Dates and times

    [from_grib_date_time] builds a [datetime.datetime]; the calendar
    arithmetic below follows the standard library's [datetime] module
    (proleptic Gregorian ordinals, the field checks of the constructor, and
    [timedelta.total_seconds] of a difference of two datetimes). *)

Section DateTime.
Local Open Scope Z_scope.

Definition MINYEAR : Z := 1.
Definition MAXYEAR : Z := 9999.

Definition DAYS_IN_MONTH : list Z := [-1; 31; 28; 31; 30; 31; 30; 31; 31; 30; 31; 30; 31].

Fixpoint accumulate (acc : Z) (l : list Z) : list Z :=
  match l with
  | [] => []
  | x :: r => acc :: accumulate (acc + x) r
  end.

(** [_DAYS_BEFORE_MONTH]: [-1], then the running sum of [_DAYS_IN_MONTH[1:]]. *)
Definition DAYS_BEFORE_MONTH : list Z := -1 :: accumulate 0 (tl DAYS_IN_MONTH).

Definition is_leap (year : Z) : bool :=
  Z.eqb (year mod 4) 0 && (negb (Z.eqb (year mod 100) 0) || Z.eqb (year mod 400) 0).

Definition days_before_year (year : Z) : Z :=
  let y := year - 1 in y * 365 + y / 4 - y / 100 + y / 400.

Definition days_in_month (year month : Z) : Z :=
  if Z.eqb month 2 && is_leap year then 29 else nth (Z.to_nat month) DAYS_IN_MONTH 0.

Definition days_before_month (year month : Z) : Z :=
  nth (Z.to_nat month) DAYS_BEFORE_MONTH 0 + (if Z.ltb 2 month && is_leap year then 1 else 0).

(** [_ymd2ord]: 1 for 0001-01-01. *)
Definition ymd2ord (year month day : Z) : Z :=
  days_before_year year + days_before_month year month + day.

(** [_check_date_fields]. *)
Definition check_date_fields (year month day : Z) : result unit :=
  if negb (Z.leb MINYEAR year && Z.leb year MAXYEAR) then Err ValueError
  else if negb (Z.leb 1 month && Z.leb month 12) then Err ValueError
  else if negb (Z.leb 1 day && Z.leb day (days_in_month year month)) then Err ValueError
  else Ok tt.

(** [_check_time_fields] for [hour] and [minute] (seconds are 0). *)
Definition check_time_fields (hour minute : Z) : result unit :=
  if negb (Z.leb 0 hour && Z.leb hour 23) then Err ValueError
  else if negb (Z.leb 0 minute && Z.leb minute 59) then Err ValueError
  else Ok tt.

(** [INT_MIN] and [INT_MAX] of a 32-bit C [int]. *)
Definition INT_MIN : Z := -2147483648.
Definition INT_MAX : Z := 2147483647.

(** The ["i"] format of [PyArg_ParseTupleAndKeywords]: a Python int out of
    the range of a C int raises [OverflowError]. *)
Definition parse_c_int (x : Z) : result Z :=
  if Z.leb INT_MIN x && Z.leb x INT_MAX then Ok x else Err OverflowError.

(** [from_grib_date_time(date, time)]: Python's [//] and [%] by a positive
    constant are [Z.div] and [Z.modulo]; [datetime.datetime(year, month,
    day, hour, minute)] first parses its five arguments as C ints, then
    checks the fields; the difference of two datetimes is
    [days * 86400 + seconds]. *)
Definition from_grib_date_time (date time : Z) : result Z :=
  let hour := time / 100 in
  let minute := time mod 100 in
  let year := date / 10000 in
  let month := date / 100 mod 100 in
  let day := date mod 100 in
  let* year := parse_c_int year in
  let* month := parse_c_int month in
  let* day := parse_c_int day in
  let* hour := parse_c_int hour in
  let* minute := parse_c_int minute in
  let* u := check_date_fields year month day in
  let* v := check_time_fields hour minute in
  Ok ((ymd2ord year month day - ymd2ord 1970 1 1) * 86400 + (hour * 3600 + minute * 60)).

End DateTime.

(** [from_grib_date_time] on header values: [//] on a string raises. *)
Definition from_grib_value (date time : value) : result Z :=
  match date, time with
  | VInt d, VInt t => from_grib_date_time d t
  | _, _ => Err TypeError
  end.

Definition date_time_attributes : attributes :=
  [("units", VStr "seconds since 1970-01-01T00:00:00+00:00");
   ("calendar", VStr "proleptic_gregorian");
   ("axis", VStr "T");
   ("standard_name", VStr "forecast_reference_time")].

(** [index.index_keys.index(key)]. *)
Definition key_position (idx : index) (key : string) : result nat :=
  match str_index key (index_keys idx) with
  | Some i => Ok i
  | None => Err ValueError
  end.

(** [header_values[i]] of a tuple. *)
Definition tuple_get (header_values : list value) (i : nat) : result value :=
  match nth_error header_values i with
  | Some v => Ok v
  | None => Err IndexError
  end.

(** The [for] loop of [data_date_time] over the header tuples of the index. *)
Fixpoint date_time_loop (idate itime : nat) (l : list (list value * list Z))
    (data : list Z) (reverse_index : list (Z * (value * value)))
  : result (list Z * list (Z * (value * value))) :=
  match l with
  | [] => Ok (data, reverse_index)
  | (header_values, _) :: rest =>
      let* date := tuple_get header_values idate in
      let* time := tuple_get header_values itime in
      let* seconds := from_grib_value date time in
      let data := if existsb (Z.eqb seconds) data then data else data ++ [seconds] in
      date_time_loop idate itime rest data (od_set Z.eqb seconds (date, time) reverse_index)
  end.

(** [data_date_time(index)]. *)
Definition data_date_time (idx : index)
  : result (list Z * attributes * list (Z * (value * value))) :=
  let* idate := key_position idx "dataDate" in
  let* itime := key_position idx "dataTime" in
  let* r := date_time_loop idate itime (offsets idx) [] [] in
  Ok (fst r, date_time_attributes, snd r).

(** ** Variables *)

(** The [data] of a [Variable]: a 1-d numpy array of header values, the
    0-d array [data[0]] of a size-1 coordinate, or a 1-d float array. *)
Inductive cdata :=
| CArray (vs : list value)
| CScalar (v : value)
| CFloats (xs : list spec_float).

(** [ndarray.size]. *)
Definition cdata_size (c : cdata) : nat :=
  match c with
  | CArray vs => List.length vs
  | CScalar _ => 1
  | CFloats xs => List.length xs
  end.

Record variable := {
  v_dimensions : list string;
  v_data : cdata;
  v_attributes : attributes
}.

(** The loop of [__attrs_post_init__] over [HEADER_COORDINATES_MAP]: a
    [CoordinateNotFound] is logged and the coordinate skipped; any other
    exception propagates. *)
Fixpoint coordinates_loop (idx : index) (m : list (string * list string))
    (acc : list (string * variable)) : result (list (string * variable)) :=
  match m with
  | [] => Ok acc
  | (coord_key, attrs_keys) :: rest =>
      match simple_header_coordinate idx coord_key attrs_keys with
      | Err CoordinateNotFound => coordinates_loop idx rest acc
      | Err e => Err e
      | Ok (values, attrs) =>
          let data := np_array values in
          let c := if Nat.eqb (List.length values) 1
                   then {| v_dimensions := []; v_data := CScalar (hd undef data);
                           v_attributes := attrs |}
                   else {| v_dimensions := [coord_key]; v_data := CArray data;
                           v_attributes := attrs |} in
          coordinates_loop idx rest (od_set String.eqb coord_key c acc)
      end
  end.

(** ** DataVariable *)

Record data_variable := {
  dv_index : index;
  dv_stream : list message;
  dv_attributes : attributes;
  dv_coordinates : list (string * variable);
  dv_dimensions : list string;
  dv_shape : list Z
}.

Fixpoint join (sep : string) (l : list string) : string :=
  match l with
  | [] => ""
  | [x] => x
  | x :: r => x ++ sep ++ join sep r
  end.

(** [GRID_TYPE_MAP.get(leader['gridType'], [])]. *)
Definition grid_type_keys (grid_type : value) : list string :=
  match grid_type with
  | VStr s => match od_get String.eqb s GRID_TYPE_MAP with Some ks => ks | None => [] end
  | VInt _ => []
  end.

Definition message_get_floats (o : option (list spec_float)) : result (list spec_float) :=
  match o with Some xs => Ok xs | None => Err KeyError end.

Definition is_dimension (kc : string * variable) : bool :=
  Nat.ltb 1 (cdata_size (v_data (snd kc))).

(** [self.coordinates[d].data.size]. *)
Definition coordinate_size (coords : list (string * variable)) (d : string) : result Z :=
  match od_get String.eqb d coords with
  | Some c => Ok (Z.of_nat (cdata_size (v_data c)))
  | None => Err KeyError
  end.

(** [DataVariable(index=index, stream=stream)], i.e. [__attrs_post_init__];
    [leader] is the first message of the whole stream. *)
Definition DataVariable (idx : index) (stream : list message) : result data_variable :=
  let* leader := match stream with m :: _ => Ok m | [] => Err StopIteration end in
  let* attrs := enforce_unique_attributes idx VARIABLE_ATTRIBUTES_KEYS in
  let* grid_type := message_get leader "gridType" in
  let spatial_attributes_keys := SPATIAL_COORDINATES_ATTRIBUTES_KEYS ++ grid_type_keys grid_type in
  let* spatial := enforce_unique_attributes idx spatial_attributes_keys in
  let attrs := od_update String.eqb attrs spatial in
  let* coords := coordinates_loop idx HEADER_COORDINATES_MAP [] in
  let attrs := od_set String.eqb "coordinates"
                 (VStr (join " " (map fst coords) ++ " lat lon")) attrs in
  let dimensions := map fst (filter is_dimension coords) ++ ["i"] in
  let* sizes := mapM (coordinate_size coords) (removelast dimensions) in
  let* npts := message_get leader "numberOfPoints" in
  let* n := match npts with VInt n => Ok n | VStr _ => Err TypeError end in
  let shape := sizes ++ [n] in
  let* latitude := message_get_floats (m_latitudes leader) in
  let coords := od_set String.eqb "lat"
                  {| v_dimensions := ["i"]; v_data := CFloats latitude;
                     v_attributes := [("units", VStr "degrees_north")] |} coords in
  let* longitude := message_get_floats (m_longitudes leader) in
  let coords := od_set String.eqb "lon"
                  {| v_dimensions := ["i"]; v_data := CFloats longitude;
                     v_attributes := [("units", VStr "degrees_east")] |} coords in
  Ok {| dv_index := idx; dv_stream := stream; dv_attributes := attrs;
        dv_coordinates := coords; dv_dimensions := dimensions; dv_shape := shape |}.

(** ** Dense float32 arrays

    Every write of [build_array] assigns a whole trailing row
    [data[i1, .., ik, :]], so the array is kept as its rows, indexed by the
    leading multi-index. Elements are IEEE binary32 values. *)

Definition rows := list nat -> list spec_float.

(** Storing a double into a float32 array (round to nearest even). *)
Definition to_float32 (x : spec_float) : spec_float :=
  match x with
  | S754_finite s m e => binary_round 24 128 s m e
  | S754_zero s => S754_zero s
  | S754_infinity s => S754_infinity s
  | S754_nan => S754_nan
  end.

(** A Python int compared with a float32 array is taken as a float32. *)
Definition int_to_float32 (z : Z) : spec_float := binary_normalize 24 128 z 0 false.

Fixpoint nat_list_eqb (p q : list nat) : bool :=
  match p, q with
  | [], [] => true
  | a :: r, b :: s => Nat.eqb a b && nat_list_eqb r s
  | _, _ => false
  end.

(** [np.full(shape, fill_value=np.nan, dtype='float32')]. *)
Definition np_full_nan (n : nat) : rows := fun _ => repeat S754_nan n.

(** The row assigned by [data.__setitem__(..., values)]: numpy broadcasts a
    length-1 array over the row and refuses any other length mismatch. *)
Definition broadcast_row (values : list spec_float) (n : nat) : result (list spec_float) :=
  match values with
  | [v] => Ok (repeat (to_float32 v) n)
  | _ => if Nat.eqb (List.length values) n then Ok (map to_float32 values)
         else Err ValueError
  end.

(** [data.__setitem__(tuple(header_indexes + [slice(None, None)]), values)]. *)
Definition setitem (a : rows) (p : list nat) (values : list spec_float) (n : nat)
  : result rows :=
  let* row := broadcast_row values n in
  Ok (fun q => if nat_list_eqb q p then row else a q).

(** [sorted(index.offsets.items(), key=lambda x: x[1])]: Python compares
    the offset lists lexicographically and [sorted] is stable. *)
Fixpoint lex_ltb (l1 l2 : list Z) : bool :=
  match l1, l2 with
  | _, [] => false
  | [], _ :: _ => true
  | a :: r, b :: s => Z.ltb a b || (Z.eqb a b && lex_ltb r s)
  end.

Definition bucket := (list value * list Z)%type.

Fixpoint insert_bucket (b : bucket) (l : list bucket) : list bucket :=
  match l with
  | [] => [b]
  | c :: r => if lex_ltb (snd b) (snd c) then b :: c :: r else c :: insert_bucket b r
  end.

Definition sort_buckets (l : list bucket) : list bucket :=
  fold_left (fun acc b => insert_bucket b acc) l [].

Definition tolist (c : cdata) : result (list value) :=
  match c with
  | CArray vs => Ok vs
  | CScalar _ | CFloats _ => Err TypeError
  end.

(** The integer position of a header tuple along each non-trailing dimension. *)
Definition header_indexes (dv : data_variable) (h : list value) : result (list nat) :=
  mapM (fun dim =>
          let* i := match str_index dim (index_keys (dv_index dv)) with
                    | Some i => Ok i | None => Err ValueError end in
          let header_value := nth i h undef in
          let* c := match od_get String.eqb dim (dv_coordinates dv) with
                    | Some c => Ok c | None => Err KeyError end in
          let* l := tolist (v_data c) in
          list_index header_value l)
       (removelast (dv_dimensions dv)).

(** The body of the [for] loop of [build_array]: only [offset[0]] is read. *)
Fixpoint fill (dv : data_variable) (n : nat) (a : rows) (l : list bucket) : result rows :=
  match l with
  | [] => Ok a
  | (h, offs) :: rest =>
      let* p := header_indexes dv h in
      let* off := match offs with o :: _ => Ok o | [] => Err IndexError end in
      let* message := message_fromfile (dv_stream dv) off in
      let* a' := setitem a p (m_values message) n in
      fill dv n a' rest
  end.

(** [self.attributes.get('missingValue', 9999)] as compared with the array;
    a string value equals no float. *)
Definition missing_value (attrs : attributes) : option spec_float :=
  match od_get String.eqb "missingValue" attrs with
  | None => Some (int_to_float32 9999)
  | Some (VInt z) => Some (int_to_float32 z)
  | Some (VStr _) => None
  end.

(** [data[data == missing_value] = np.nan]. *)
Definition missing_subst (mv : option spec_float) (x : spec_float) : spec_float :=
  match mv with
  | Some m => if SFeqb x m then S754_nan else x
  | None => x
  end.

Definition trailing_size (dv : data_variable) : result nat :=
  let n := last (dv_shape dv) 0%Z in
  if Z.ltb n 0 then Err ValueError else Ok (Z.to_nat n).

(** [DataVariable.build_array]. *)
Definition build_array (dv : data_variable) : result rows :=
  let* n := trailing_size dv in
  let* data := fill dv n (np_full_nan n) (sort_buckets (offsets (dv_index dv))) in
  let mv := missing_value (dv_attributes dv) in
  Ok (fun q => map (missing_subst mv) (data q)).

(** ** The cached [DataArray.data] property

    The object store holds the arrays allocated so far; [_data] is the
    attribute set by the first access, [file_opens] counts the passes over
    the file made by [build_array]. *)

Record da_state := {
  heap : list rows;
  _data : option nat;
  file_opens : nat
}.

(** [DataArray.data]: [if not hasattr(self, '_data'): self._data =
    self.build_array()], then [return self._data]. *)
Definition data (dv : data_variable) (st : da_state) : result (nat * da_state) :=
  match _data st with
  | Some loc => Ok (loc, st)
  | None =>
      let* a := build_array dv in
      let loc := List.length (heap st) in
      Ok (loc, {| heap := heap st ++ [a]; _data := Some loc; file_opens := S (file_opens st) |})
  end.

(** ** Dataset builder *)

(** [dict_merge(master, update)]. *)
Fixpoint dict_merge {K V : Type} (keqb : K -> K -> bool) (veqb : V -> V -> bool)
    (master update : list (K * V)) : result (list (K * V)) :=
  match update with
  | [] => Ok master
  | (key, v) :: rest =>
      match od_get keqb key master with
      | None => dict_merge keqb veqb (od_set keqb key v master) rest
      | Some v' => if veqb v' v then dict_merge keqb veqb master rest else Err ValueError
      end
  end.

(** An entry of the [variables] mapping: a [DataVariable] or a coordinate
    [Variable]. *)
Inductive entry :=
| VarEntry (dv : data_variable)
| CoordEntry (c : variable).

Fixpoint forall2b {A} (f : A -> A -> bool) (l1 l2 : list A) : bool :=
  match l1, l2 with
  | [], [] => true
  | a :: r, b :: s => f a b && forall2b f r s
  | _, _ => false
  end.

Definition strings_eqb (l1 l2 : list string) : bool := forall2b String.eqb l1 l2.

Definition attributes_eqb (a1 a2 : attributes) : bool :=
  forall2b (fun x y => String.eqb (fst x) (fst y) && value_eqb (snd x) (snd y)) a1 a2.

(** [np.array_equal]. *)
Definition array_equal (c1 c2 : cdata) : bool :=
  match c1, c2 with
  | CArray x, CArray y => forall2b value_eqb x y
  | CScalar x, CScalar y => value_eqb x y
  | CFloats x, CFloats y => forall2b SFeqb x y
  | _, _ => false
  end.

(** [Variable.__eq__]. *)
Definition variable_eqb (v1 v2 : variable) : bool :=
  strings_eqb (v_dimensions v1) (v_dimensions v2)
  && attributes_eqb (v_attributes v1) (v_attributes v2)
  && array_equal (v_data v1) (v_data v2).

Definition index_eqb (i1 i2 : index) : bool :=
  strings_eqb (index_keys i1) (index_keys i2)
  && forall2b (fun b c => header_eqb (fst b) (fst c) && forall2b Z.eqb (snd b) (snd c))
              (offsets i1) (offsets i2).

(** The attrs-generated [__eq__] of [DataVariable] compares its [index] and
    its [stream]; within one dataset build every variable holds the same
    stream object. Objects of different classes are never equal. *)
Definition entry_eqb (e1 e2 : entry) : bool :=
  match e1, e2 with
  | VarEntry a, VarEntry b => index_eqb (dv_index a) (dv_index b)
  | CoordEntry a, CoordEntry b => variable_eqb a b
  | _, _ => false
  end.

Definition dimensions_map := list (string * Z).
Definition variables_map := list (value * entry).

(** The body of the [for] loop of [build_dataset_components]. *)
Fixpoint components_loop (idx : index) (stream : list message) (pairs : list (value * value))
    (dimensions : dimensions_map) (variables : variables_map)
  : result (dimensions_map * variables_map) :=
  match pairs with
  | [] => Ok (dimensions, variables)
  | (param_id, short_name) :: rest =>
      let* var := DataVariable (subindex idx "paramId" param_id) stream in
      let vars := od_update value_eqb [(short_name, VarEntry var)]
                    (map (fun kc => (VStr (fst kc), CoordEntry (snd kc))) (dv_coordinates var)) in
      let dims := combine (dv_dimensions var) (dv_shape var) in
      let* dimensions := dict_merge String.eqb Z.eqb dimensions dims in
      let* variables := dict_merge value_eqb entry_eqb variables vars in
      components_loop idx stream rest dimensions variables
  end.

(** [build_dataset_components(stream, global_attributes_keys)]; [version]
    is the module constant [VERSION]. *)
Definition build_dataset_components (stream : list message) (global_attributes_keys : list string)
    (version : string) : result (dimensions_map * variables_map * attributes) :=
  let idx := index_fromstream stream ALL_KEYS in
  let param_ids := index_get idx "paramId" in
  let* dv := components_loop idx stream (combine param_ids (index_get idx "shortName")) [] [] in
  let* attrs := enforce_unique_attributes idx global_attributes_keys in
  let attrs := od_set String.eqb "eccodesGribVersion" (VStr version) attrs in
  Ok (fst dv, snd dv, attrs).

(** ** Sample streams

    Small GRIB streams used to evaluate the definitions on concrete inputs.
    Payloads are doubles; [f64 z] is the integer [z] as a double. *)

Definition f64 (z : Z) : spec_float := binary_normalize 53 1024 z 0 false.


(** The value of a computation that is known to succeed. *)
Definition get_ok {A} (default : A) (r : result A) : A :=
  match r with Ok a => a | Err _ => default end.

Definition is_ok {A} (r : result A) : bool :=
  match r with Ok _ => true | Err _ => false end.

Definition sample_message (off : Z) (param_id : Z) (short_name : string) (date : Z)
    (grid_n : Z) (vals : list spec_float) : message :=
  {| m_offset := off;
     m_keys := [("edition", VInt 2); ("centre", VStr "ecmf");
                ("paramId", VInt param_id); ("shortName", VStr short_name);
                ("units", VStr "K"); ("missingValue", VInt 9999);
                ("gridType", VStr "regular_ll");
                ("numberOfPoints", VInt (Z.of_nat (List.length vals)));
                ("N", VInt grid_n);
                ("dataDate", VInt date); ("dataTime", VInt 1200);
                ("typeOfLevel", VStr "isobaricInhPa"); ("topLevel", VInt 500)];
     m_values := vals;
     m_latitudes := Some (map (fun _ => f64 45) vals);
     m_longitudes := Some (map (fun _ => f64 10) vals) |}.

Definition empty_data_variable : data_variable :=
  {| dv_index := {| index_keys := []; offsets := [] |}; dv_stream := [];
     dv_attributes := []; dv_coordinates := []; dv_dimensions := []; dv_shape := [] |}.

(** The variable of parameter [param_id] of a stream, as
    [build_dataset_components] builds it. *)
Definition variable_of_stream (stream : list message) (param_id : Z) : data_variable :=
  get_ok empty_data_variable
    (DataVariable (subindex (index_fromstream stream ALL_KEYS) "paramId" (VInt param_id)) stream).

Definition materialised (dv : data_variable) : rows := get_ok (np_full_nan 0) (build_array dv).

(** Two dates of one field. *)
Definition stream_two_dates : list message :=
  [sample_message 0 130 "t" 20170101 0 [f64 1; f64 2];
   sample_message 100 130 "t" 20170102 0 [f64 3; f64 4]].


(** Two messages with the identical header at offsets 0 and 200. *)
Definition stream_duplicate : list message :=
  [sample_message 0 130 "t" 20170101 0 [f64 1; f64 2];
   sample_message 100 130 "t" 20170102 0 [f64 3; f64 4];
   sample_message 200 130 "t" 20170101 0 [f64 5; f64 6]].

(** Two headers that differ only in a key that is neither a coordinate nor
    an attribute of the variable, so they land on the same position. *)
Definition stream_same_position : list message :=
  [sample_message 0 130 "t" 20170101 1 [f64 1; f64 2];
   sample_message 100 130 "t" 20170101 2 [f64 3; f64 4]].

(** Three parameters, two of which share the short name ['a']. *)
Definition stream_shared_short_name : list message :=
  [sample_message 0 1 "a" 20170101 0 [f64 1];
   sample_message 100 2 "a" 20170101 0 [f64 2];
   sample_message 200 3 "b" 20170101 0 [f64 3]].

(** The variables of a dataset: key, ['paramId'] and ['shortName'] attributes. *)
Definition variable_summary (vars : variables_map) : list (value * option value * option value) :=
  flat_map (fun kv => match snd kv with
                      | VarEntry dv => [(fst kv, od_get String.eqb "paramId" (dv_attributes dv),
                                         od_get String.eqb "shortName" (dv_attributes dv))]
                      | CoordEntry _ => []
                      end) vars.

Definition dv_two_dates : data_variable := variable_of_stream stream_two_dates 130.
Definition dv_duplicate : data_variable := variable_of_stream stream_duplicate 130.
Definition dv_same_position : data_variable := variable_of_stream stream_same_position 130.

Definition initial_state : da_state := {| heap := []; _data := None; file_opens := 0 |}.

(** The sub-index of parameter 130 of [stream_two_dates]. *)
Definition idx_two_dates : index :=
  subindex (index_fromstream stream_two_dates ALL_KEYS) "paramId" (VInt 130).

Definition first_bucket (dv : data_variable) : bucket := hd ([], []) (offsets (dv_index dv)).

(** [stream_duplicate] with another payload at offset 200. *)
Definition stream_duplicate_altered : list message :=
  [sample_message 0 130 "t" 20170101 0 [f64 1; f64 2];
   sample_message 100 130 "t" 20170102 0 [f64 3; f64 4];
   sample_message 200 130 "t" 20170101 0 [f64 7; f64 8]].

(** The state after the first access to [data] of [dv_two_dates]. *)
Definition state_two_dates : da_state :=
  {| heap := [materialised dv_two_dates]; _data := Some 0; file_opens := 1 |}.

(** [with_key k v m]: the message [m] with key [k] set to [v]. *)
Definition with_key (k : string) (v : value) (m : message) : message :=
  {| m_offset := m_offset m; m_keys := od_set String.eqb k v (m_keys m);
     m_values := m_values m; m_latitudes := m_latitudes m; m_longitudes := m_longitudes m |}.

(** Two fields of one parameter, one on the 500 level and one on the
    string level ['sfc']. *)
Definition stream_mixed_level : list message :=
  [sample_message 0 130 "t" 20170101 0 [f64 1; f64 2];
   with_key "topLevel" (VStr "sfc") (sample_message 100 130 "t" 20170101 0 [f64 3; f64 4])].

Definition idx_mixed_level : index :=
  subindex (index_fromstream stream_mixed_level ALL_KEYS) "paramId" (VInt 130).

Definition dv_mixed_level : data_variable := variable_of_stream stream_mixed_level 130.

(** Three fields of one parameter on two dates and two levels: the
    position (20170102, 850) receives no record, and the first payload
    holds the missing-value sentinel 9999. *)
Definition stream_sparse : list message :=
  [sample_message 0 130 "t" 20170101 0 [f64 1; f64 9999];
   sample_message 100 130 "t" 20170102 0 [f64 3; f64 4];
   with_key "topLevel" (VInt 850) (sample_message 200 130 "t" 20170101 0 [f64 5; f64 6])].

Definition dv_sparse : data_variable := variable_of_stream stream_sparse 130.

(** A field declaring three points with a payload of two values. *)
Definition stream_bad_length : list message :=
  [with_key "numberOfPoints" (VInt 3) (sample_message 0 130 "t" 20170101 0 [f64 1; f64 2])].

Definition dv_bad_length : data_variable := variable_of_stream stream_bad_length 130.

(** * Proofs *)

(** ** Ordered dictionaries *)

Section OrderedDictFacts.
Context {K V : Type} (keqb : K -> K -> bool).
Hypothesis keqb_spec : forall a b, keqb a b = true <-> a = b.

Lemma keqb_refl : forall a, keqb a a = true.
Proof. intro a. now apply keqb_spec. Qed.

Lemma keqb_false : forall a b, a <> b -> keqb a b = false.
Proof.
  intros a b Hne. destruct (keqb a b) eqn:E; [|reflexivity].
  apply keqb_spec in E. contradiction.
Qed.

Lemma od_get_set_eq : forall (d : list (K * V)) k v, od_get keqb k (od_set keqb k v d) = Some v.
Proof.
  induction d as [|[k' v'] r IH]; intros k v; simpl.
  - now rewrite keqb_refl.
  - destruct (keqb k k') eqn:E; simpl.
    + now rewrite E.
    + rewrite E. apply IH.
Qed.

Lemma od_get_set_neq : forall (d : list (K * V)) k k' v,
    k <> k' -> od_get keqb k (od_set keqb k' v d) = od_get keqb k d.
Proof.
  induction d as [|[k2 v2] r IH]; intros k k' v Hne; simpl.
  - now rewrite keqb_false.
  - destruct (keqb k' k2) eqn:E; simpl.
    + apply keqb_spec in E. subst k2. now rewrite keqb_false.
    + destruct (keqb k k2); [reflexivity|]. now apply IH.
Qed.

Lemma od_get_in : forall (d : list (K * V)) k,
    od_get keqb k d <> None <-> In k (map fst d).
Proof.
  induction d as [|[k' v'] r IH]; intro k; simpl.
  - tauto.
  - destruct (keqb k k') eqn:E.
    + apply keqb_spec in E. subst. split; [auto|discriminate].
    + rewrite IH. split; [auto|]. intros [H|H]; [|exact H].
      subst. now rewrite keqb_refl in E.
Qed.

Lemma od_set_keys : forall (d : list (K * V)) k v,
    map fst (od_set keqb k v d) =
    if existsb (keqb k) (map fst d) then map fst d else map fst d ++ [k].
Proof.
  induction d as [|[k' v'] r IH]; intros k v; simpl; [reflexivity|].
  destruct (keqb k k'); simpl; [reflexivity|].
  rewrite IH. destruct (existsb (keqb k) (map fst r)); reflexivity.
Qed.

Lemma od_set_nodup : forall (d : list (K * V)) k v,
    NoDup (map fst d) -> NoDup (map fst (od_set keqb k v d)).
Proof.
  intros d k v Hnd. rewrite od_set_keys.
  destruct (existsb (keqb k) (map fst d)) eqn:E; [exact Hnd|].
  apply NoDup_app; [exact Hnd | constructor; [intros []|constructor] |].
  intros x Hx [Hy|[]]. subst x.
  assert (existsb (keqb k) (map fst d) = true) as E'.
  { apply existsb_exists. exists k. split; [exact Hx|apply keqb_refl]. }
  congruence.
Qed.
End OrderedDictFacts.

Lemma value_eqb_spec : forall a b, value_eqb a b = true <-> a = b.
Proof.
  intros [x|x] [y|y]; simpl; split; intro H; try discriminate.
  - apply Z.eqb_eq in H. now subst.
  - injection H as ->. apply Z.eqb_refl.
  - apply String.eqb_eq in H. now subst.
  - injection H as ->. apply String.eqb_refl.
Qed.

Lemma value_eqb_refl : forall a, value_eqb a a = true.
Proof. intro a. now apply value_eqb_spec. Qed.

Create HintDb odict.
#[export] Hint Resolve String.eqb_eq value_eqb_spec Z.eqb_eq : odict.

(** ** [enforce_unique_attributes] *)

Lemma existsb_rev : forall {A} (f : A -> bool) l, existsb f (rev l) = existsb f l.
Proof.
  intros A f l. apply Bool.eq_iff_eq_true. rewrite !existsb_exists.
  split; intros [x [Hx Hf]]; exists x; split; auto; now apply in_rev in Hx || apply in_rev.
Qed.

Definition one_valued (idx : index) (k : string) : bool :=
  Nat.eqb (List.length (index_get idx k)) 1.

Lemma enforce_unique_loop_err : forall idx keys acc,
    (exists k, In k keys /\ 1 < List.length (index_get idx k)) ->
    enforce_unique_loop idx keys acc = Err ValueError.
Proof.
  intros idx keys. induction keys as [|k0 rest IH]; intros acc [k [Hin Hlen]]; simpl.
  - destruct Hin.
  - destruct (Nat.ltb 1 (List.length (index_get idx k0))) eqn:E; [reflexivity|].
    apply Nat.ltb_ge in E. destruct Hin as [->|Hin]; [lia|].
    destruct (index_get idx k0); apply IH; eauto.
Qed.

Lemma enforce_unique_loop_ok : forall idx keys acc,
    (forall k, In k keys -> List.length (index_get idx k) <= 1) ->
    exists r, enforce_unique_loop idx keys acc = Ok r
      /\ (forall k, od_get String.eqb k r =
            if existsb (String.eqb k) keys
            then match index_get idx k with [v] => Some v | _ => od_get String.eqb k acc end
            else od_get String.eqb k acc)
      /\ map fst r = nodup_strings (rev (map fst acc)) (filter (one_valued idx) keys).
Proof.
  intros idx keys. induction keys as [|k0 rest IH]; intros acc Hle; simpl.
  - exists acc. split; [reflexivity|]. split; [intro k; reflexivity|].
    now rewrite rev_involutive.
  - assert (Hk0 := Hle k0 (or_introl eq_refl)).
    assert (Hrest : forall k, In k rest -> List.length (index_get idx k) <= 1)
      by (intros k Hk; apply Hle; now right).
    destruct (Nat.ltb 1 (List.length (index_get idx k0))) eqn:E.
    { apply Nat.ltb_lt in E. lia. }
    unfold one_valued at 1.
    destruct (index_get idx k0) as [|v [|w vs]] eqn:Hv; simpl in Hk0 |- *; try lia.
    + destruct (IH acc Hrest) as [r [Hr [Hget Hkeys]]].
      exists r. split; [exact Hr|]. split; [|exact Hkeys].
      intro k. rewrite Hget. destruct (String.eqb k k0) eqn:Ek; simpl; [|reflexivity].
      apply String.eqb_eq in Ek. subst k. rewrite Hv.
      destruct (existsb (String.eqb k0) rest); reflexivity.
    + destruct (IH (od_set String.eqb k0 v acc) Hrest) as [r [Hr [Hget Hkeys]]].
      exists r. split; [exact Hr|]. split.
      * intro k. rewrite Hget. destruct (String.eqb k k0) eqn:Ek; simpl.
        -- apply String.eqb_eq in Ek. subst k. rewrite Hv.
           rewrite (od_get_set_eq String.eqb String.eqb_eq).
           destruct (existsb (String.eqb k0) rest); reflexivity.
        -- assert (k <> k0) by (intro; subst; now rewrite String.eqb_refl in Ek).
           rewrite (od_get_set_neq String.eqb String.eqb_eq); auto.
      * rewrite Hkeys, (od_set_keys String.eqb), <- (existsb_rev _ (map fst acc)).
        destruct (existsb (String.eqb k0) (rev (map fst acc))); [reflexivity|].
        now rewrite rev_app_distr.
Qed.

(** C4: per key, [enforce_unique_attributes] raises when the index reports two
    or more distinct values, maps the key to the value when it reports exactly
    one, leaves the key out when it reports none, and lists the kept keys in
    the order of the given key list. *)
Theorem enforce_unique_attributes_cases : forall (idx : index) (keys : list string),
    ((exists k, In k keys /\ 1 < List.length (index_get idx k)) ->
     enforce_unique_attributes idx keys = Err ValueError)
    /\ ((forall k, In k keys -> List.length (index_get idx k) <= 1) ->
        exists attrs, enforce_unique_attributes idx keys = Ok attrs
          /\ (forall k v, In k keys -> index_get idx k = [v] ->
                          od_get String.eqb k attrs = Some v)
          /\ (forall k, In k keys -> index_get idx k = [] -> od_get String.eqb k attrs = None)
          /\ (forall k, ~ In k keys -> od_get String.eqb k attrs = None)
          /\ map fst attrs = nodup_strings [] (filter (one_valued idx) keys)).
Proof.
  intros idx keys. split.
  - intro H. now apply enforce_unique_loop_err.
  - intro H. destruct (enforce_unique_loop_ok idx keys [] H) as [r [Hr [Hget Hkeys]]].
    exists r. split; [exact Hr|]. repeat split.
    + intros k v Hin Hv. rewrite Hget, Hv.
      replace (existsb (String.eqb k) keys) with true; [reflexivity|].
      symmetry. apply existsb_exists. exists k. split; [exact Hin|apply String.eqb_refl].
    + intros k Hin Hv. rewrite Hget, Hv. now destruct (existsb (String.eqb k) keys).
    + intros k Hnin. rewrite Hget.
      replace (existsb (String.eqb k) keys) with false; [reflexivity|].
      symmetry. apply Bool.not_true_iff_false. intro E. apply existsb_exists in E.
      destruct E as [x [Hx Ex]]. apply String.eqb_eq in Ex. subst. contradiction.
    + exact Hkeys.
Qed.

(** ** Inverting the error monad *)

Lemma bind_ok : forall {A B} (r : result A) (k : A -> result B) b,
    bind r k = Ok b -> exists a, r = Ok a /\ k a = Ok b.
Proof. intros A B [a|e] k b H; simpl in H; [now exists a|discriminate]. Qed.

Ltac inv_ok H :=
  repeat match type of H with
  | bind _ _ = Ok _ =>
      let a := fresh "a" in let Ea := fresh "E" in
      apply bind_ok in H; destruct H as [a [Ea H]]
  end.

Lemma DataVariable_inv : forall idx stream dv,
    DataVariable idx stream = Ok dv ->
    exists leader rest coords sizes n attrs,
      stream = leader :: rest
      /\ coordinates_loop idx HEADER_COORDINATES_MAP [] = Ok coords
      /\ dv_index dv = idx
      /\ dv_stream dv = stream
      /\ dv_dimensions dv = map fst (filter is_dimension coords) ++ ["i"]
      /\ mapM (coordinate_size coords) (map fst (filter is_dimension coords)) = Ok sizes
      /\ message_get leader "numberOfPoints" = Ok (VInt n)
      /\ dv_shape dv = sizes ++ [n]
      /\ (exists lat lon,
            dv_coordinates dv =
            od_set String.eqb "lon" lon (od_set String.eqb "lat" lat coords))
      /\ dv_attributes dv = attrs.
Proof.
  intros idx stream dv H. unfold DataVariable in H. inv_ok H.
  destruct stream as [|leader rest]; simpl in E; [discriminate|]. injection E as <-.
  destruct a5 as [n|s]; [|discriminate]. injection E6 as <-.
  rewrite removelast_last in E4.
  injection H as <-. simpl.
  exists leader, rest, a3, a4, n, (od_set String.eqb "coordinates"
       (VStr (join " " (map fst a3) ++ " lat lon"))
       (od_update String.eqb a0 a2)).
  repeat split; auto. eexists; eexists; reflexivity.
Qed.

(** ** Coordinates *)

Lemma in_od_set_keys : forall {K V} (keqb : K -> K -> bool),
    (forall a b, keqb a b = true <-> a = b) ->
    forall (d : list (K * V)) k k0 v,
    In k (map fst (od_set keqb k0 v d)) <-> In k (map fst d) \/ k = k0.
Proof.
  intros K V keqb Hspec d k k0 v. rewrite (od_set_keys keqb).
  destruct (existsb (keqb k0) (map fst d)) eqn:E.
  - apply existsb_exists in E. destruct E as [x [Hx Ex]]. apply Hspec in Ex. subst x.
    split; [auto|]. intros [H|H]; [exact H|now subst].
  - rewrite in_app_iff. simpl. intuition.
Qed.

Lemma od_set_notin : forall {K V} (keqb : K -> K -> bool),
    (forall a b, keqb a b = true <-> a = b) ->
    forall (d : list (K * V)) k v, ~ In k (map fst d) -> od_set keqb k v d = d ++ [(k, v)].
Proof.
  intros K V keqb Hspec d. induction d as [|[k' v'] r IH]; intros k v Hn; simpl; [reflexivity|].
  simpl in Hn. rewrite (keqb_false keqb Hspec k k') by (intro; subst; tauto).
  now rewrite IH by tauto.
Qed.

Lemma enforce_unique_loop_err_value : forall idx keys acc e,
    enforce_unique_loop idx keys acc = Err e -> e = ValueError.
Proof.
  intros idx keys. induction keys as [|k rest IH]; intros acc e H; simpl in H; [discriminate|].
  destruct (Nat.ltb 1 (List.length (index_get idx k))); [congruence|].
  destruct (index_get idx k); eauto.
Qed.

(** The coordinate is missing when the index reports the single value
    ['undef']. *)
Definition undef_only (vs : list value) : bool :=
  match vs with
  | [v] => value_eqb v undef
  | _ => false
  end.

Lemma undef_only_spec : forall vs, undef_only vs = true <-> vs = [undef].
Proof.
  intros [|v [|w vs]]; simpl; split; intro H; try discriminate.
  - apply value_eqb_spec in H. now subst.
  - injection H as ->. apply value_eqb_refl.
Qed.

Lemma simple_header_coordinate_cnf_iff : forall idx key ak,
    simple_header_coordinate idx key ak = Err CoordinateNotFound <-> index_get idx key = [undef].
Proof.
  intros idx key ak. unfold simple_header_coordinate.
  destruct (index_get idx key) as [|v [|w vs]] eqn:Hd; simpl.
  - split; [|discriminate]. intro H.
    destruct (enforce_unique_attributes idx ak) eqn:E; simpl in H; [discriminate|].
    injection H as ->. apply enforce_unique_loop_err_value in E. discriminate.
  - destruct (value_eqb v undef) eqn:Ev.
    + apply value_eqb_spec in Ev. subst. tauto.
    + split; intro H.
      * destruct (enforce_unique_attributes idx ak) eqn:E; simpl in H; [discriminate|].
        injection H as ->. apply enforce_unique_loop_err_value in E. discriminate.
      * injection H as ->. now rewrite value_eqb_refl in Ev.
  - split; [|discriminate]. intro H.
    destruct (enforce_unique_attributes idx ak) eqn:E; simpl in H; [discriminate|].
    injection H as ->. apply enforce_unique_loop_err_value in E. discriminate.
Qed.

Lemma coordinates_loop_skip : forall idx key ak m acc,
    index_get idx key = [undef] ->
    coordinates_loop idx ((key, ak) :: m) acc = coordinates_loop idx m acc.
Proof.
  intros idx key ak m acc H. simpl.
  apply (simple_header_coordinate_cnf_iff idx key ak) in H. now rewrite H.
Qed.

Lemma coordinates_loop_keys : forall idx m acc r,
    coordinates_loop idx m acc = Ok r ->
    forall k, In k (map fst r) <->
              In k (map fst acc) \/ (In k (map fst m) /\ index_get idx k <> [undef]).
Proof.
  intros idx m. induction m as [|[k0 ak] rest IH]; intros acc r H k; simpl in H.
  - injection H as <-. simpl. tauto.
  - destruct (simple_header_coordinate idx k0 ak) as [[values attrs]|e] eqn:S.
    + apply IH with (k := k) in H. rewrite H, (in_od_set_keys String.eqb String.eqb_eq).
      assert (index_get idx k0 <> [undef]).
      { intro Hu. apply (simple_header_coordinate_cnf_iff idx k0 ak) in Hu. congruence. }
      simpl. split.
      * intros [[Ha| ->]|[Hin Hu]]; auto.
      * intros [Ha|[[->|Hin] Hu]]; auto.
    + destruct e; try discriminate.
      apply (simple_header_coordinate_cnf_iff idx k0 ak) in S.
      apply IH with (k := k) in H. rewrite H. simpl. split.
      * intros [Ha|[Hin Hu]]; auto.
      * intros [Ha|[[->|Hin] Hu]]; auto. contradiction.
Qed.

Lemma header_coordinates_nodup : NoDup (map fst HEADER_COORDINATES_MAP).
Proof.
  simpl. repeat apply NoDup_cons; try apply NoDup_nil; simpl; intuition discriminate.
Qed.

Lemma header_coordinate_not_lat_lon_i : forall key,
    In key (map fst HEADER_COORDINATES_MAP) -> key <> "lat" /\ key <> "lon" /\ key <> "i".
Proof.
  intros key H. simpl in H.
  repeat destruct H as [H|H]; subst; try contradiction; repeat split; discriminate.
Qed.

(** C6: [simple_header_coordinate] raises [CoordinateNotFound] exactly when
    the index reports the single value ['undef'] for the key; the
    construction loop catches it and goes on with the remaining coordinates,
    so in a constructed [DataVariable] a header coordinate is present exactly
    when its values are not [['undef']], and a skipped one is no dimension. *)
Theorem simple_header_coordinate_skipped : forall (idx : index) key ak,
    (simple_header_coordinate idx key ak = Err CoordinateNotFound
       <-> index_get idx key = [undef])
    /\ (forall m acc, index_get idx key = [undef] ->
          coordinates_loop idx ((key, ak) :: m) acc = coordinates_loop idx m acc)
    /\ (forall stream dv, DataVariable idx stream = Ok dv ->
          In key (map fst HEADER_COORDINATES_MAP) ->
          (In key (map fst (dv_coordinates dv)) <-> index_get idx key <> [undef])
          /\ (index_get idx key = [undef] -> ~ In key (dv_dimensions dv))).
Proof.
  intros idx key ak. split; [apply simple_header_coordinate_cnf_iff|]. split.
  { intros m acc H. now apply coordinates_loop_skip. }
  intros stream dv Hdv Hkey.
  destruct (header_coordinate_not_lat_lon_i key Hkey) as [Hlat [Hlon Hi]].
  destruct (DataVariable_inv idx stream dv Hdv)
    as [leader [rest [coords [sizes [n [attrs
        [_ [Hc [_ [_ [Hdims [_ [_ [_ [[lat [lon Hco]] _]]]]]]]]]]]]]]].
  pose proof (coordinates_loop_keys idx _ [] coords Hc key) as Hk. simpl in Hk.
  assert (Hin : In key (map fst (dv_coordinates dv)) <-> In key (map fst coords)).
  { rewrite Hco, !(in_od_set_keys String.eqb String.eqb_eq). intuition. }
  split.
  - rewrite Hin, Hk. tauto.
  - intros Hu Hd. rewrite Hdims, in_app_iff in Hd. destruct Hd as [Hd|[Hd|[]]]; [|congruence].
    apply in_map_iff in Hd. destruct Hd as [[k c] [Hkk Hf]]. simpl in Hkk. subst k.
    apply filter_In in Hf. destruct Hf as [Hf _].
    assert (In key (map fst coords)) as Hm by (apply in_map_iff; now exists (key, c)).
    apply Hk in Hm. tauto.
Qed.

(** ** Dimensions and shape *)

Definition size_entry (kc : string * variable) : string * nat :=
  (fst kc, cdata_size (v_data (snd kc))).

Lemma simple_header_coordinate_ok : forall idx key ak values attrs,
    simple_header_coordinate idx key ak = Ok (values, attrs) ->
    values = index_get idx key /\ undef_only values = false.
Proof.
  intros idx key ak values attrs H. unfold simple_header_coordinate in H.
  destruct (Nat.eqb (List.length (index_get idx key)) 1 && value_eqb (hd undef (index_get idx key)) undef)
    eqn:B; [discriminate|].
  destruct (enforce_unique_attributes idx ak); simpl in H; [|discriminate].
  injection H as <- _. split; [reflexivity|].
  destruct (index_get idx key) as [|v [|w vs]]; simpl in *; auto.
Qed.

Lemma coordinates_loop_nodup : forall idx m acc r,
    coordinates_loop idx m acc = Ok r -> NoDup (map fst acc) -> NoDup (map fst r).
Proof.
  intros idx m. induction m as [|[k0 ak] rest IH]; intros acc r H Hnd; simpl in H.
  - now injection H as <-.
  - destruct (simple_header_coordinate idx k0 ak) as [[values attrs]|e].
    + apply (IH _ _ H). now apply (od_set_nodup String.eqb String.eqb_eq).
    + destruct e; try discriminate. exact (IH _ _ H Hnd).
Qed.

Lemma coordinates_loop_sizes : forall idx m acc r,
    coordinates_loop idx m acc = Ok r ->
    NoDup (map fst m) ->
    (forall k, In k (map fst m) -> ~ In k (map fst acc)) ->
    map size_entry r =
    map size_entry acc ++
    map (fun k => (k, List.length (index_get idx k)))
        (filter (fun k => negb (undef_only (index_get idx k))) (map fst m)).
Proof.
  intros idx m. induction m as [|[k0 ak] rest IH]; intros acc r H Hnd Hfresh; simpl in H |- *.
  - injection H as <-. now rewrite app_nil_r.
  - inversion Hnd as [|? ? Hk0 Hnd']; subst.
    destruct (simple_header_coordinate idx k0 ak) as [[values attrs]|e] eqn:S.
    + destruct (simple_header_coordinate_ok _ _ _ _ _ S) as [Hv Hu].
      rewrite <- Hv, Hu. simpl.
      rewrite (od_set_notin String.eqb String.eqb_eq) in H by (apply Hfresh; now left).
      rewrite (IH _ _ H Hnd').
      * rewrite map_app, <- app_assoc. f_equal. simpl. f_equal. unfold size_entry. simpl.
        rewrite <- Hv. f_equal. destruct (Nat.eqb (List.length values) 1) eqn:E; simpl.
        -- symmetry. now apply Nat.eqb_eq.
        -- unfold np_array. destruct (_ || _); [reflexivity|]. apply length_map.
      * intros k Hk. rewrite map_app, in_app_iff. simpl. intros [Ha|[Ha|[]]].
        -- apply (Hfresh k); [now right|exact Ha].
        -- subst. contradiction.
    + destruct e; try discriminate.
      apply (simple_header_coordinate_cnf_iff idx k0 ak) in S. rewrite S. simpl.
      apply (IH _ _ H Hnd'). intros k Hk. apply Hfresh. now right.
Qed.

Lemma od_get_nodup_in : forall (r : list (string * variable)) k c,
    NoDup (map fst r) -> In (k, c) r -> od_get String.eqb k r = Some c.
Proof.
  induction r as [|[k' c'] r IH]; intros k c Hnd Hin; [destruct Hin|].
  simpl in Hnd |- *. inversion Hnd as [|? ? Hk' Hnd']; subst.
  destruct Hin as [Heq|Hin].
  - injection Heq as -> ->. now rewrite String.eqb_refl.
  - destruct (String.eqb k k') eqn:E.
    + apply String.eqb_eq in E. subst. exfalso. apply Hk'.
      apply in_map_iff. now exists (k', c).
    + now apply IH.
Qed.

Lemma mapM_coordinate_size : forall r l,
    NoDup (map fst r) -> incl l r ->
    mapM (coordinate_size r) (map fst l) =
    Ok (map (fun kc => Z.of_nat (cdata_size (v_data (snd kc)))) l).
Proof.
  intros r l Hnd. induction l as [|[k c] l IH]; intro Hincl; simpl; [reflexivity|].
  unfold coordinate_size at 1.
  rewrite (od_get_nodup_in r k c Hnd (Hincl _ (or_introl eq_refl))). simpl.
  rewrite IH by (intros x Hx; apply Hincl; now right). reflexivity.
Qed.

Lemma filter_map_comm : forall {A B} (p : B -> bool) (f : A -> B) l,
    filter p (map f l) = map f (filter (fun a => p (f a)) l).
Proof.
  intros A B p f l. induction l as [|a l IH]; simpl; [reflexivity|].
  destruct (p (f a)); simpl; now rewrite IH.
Qed.

(** The header coordinates that survive [CoordinateNotFound], in the order
    of [HEADER_COORDINATES_MAP]. *)
Definition retained_coordinates (idx : index) : list string :=
  filter (fun k => negb (undef_only (index_get idx k))) (map fst HEADER_COORDINATES_MAP).

(** The retained coordinates with more than one distinct value. *)
Definition varying_coordinates (idx : index) : list string :=
  filter (fun k => Nat.ltb 1 (List.length (index_get idx k))) (retained_coordinates idx).

Lemma coordinates_dimension_sizes : forall idx coords,
    coordinates_loop idx HEADER_COORDINATES_MAP [] = Ok coords ->
    map size_entry (filter is_dimension coords) =
    map (fun k => (k, List.length (index_get idx k))) (varying_coordinates idx).
Proof.
  intros idx coords Hc.
  assert (Hs := coordinates_loop_sizes idx _ [] coords Hc header_coordinates_nodup
                  (fun k _ H => H)).
  simpl in Hs.
  transitivity (filter (fun p => Nat.ltb 1 (snd p)) (map size_entry coords)).
  - rewrite filter_map_comm. reflexivity.
  - rewrite Hs, filter_map_comm. reflexivity.
Qed.

(** C1: a constructed [DataVariable] has as dimensions the retained header
    coordinates with more than one distinct value, in the order of
    [HEADER_COORDINATES_MAP], followed by ['i']; its shape is their
    distinct-value counts followed by the [numberOfPoints] of the leader,
    the first message of the stream. *)
Theorem DataVariable_dimensions_shape : forall idx stream dv,
    DataVariable idx stream = Ok dv ->
    dv_dimensions dv = varying_coordinates idx ++ ["i"]
    /\ exists leader rest n,
         stream = leader :: rest
         /\ message_get leader "numberOfPoints" = Ok (VInt n)
         /\ dv_shape dv =
            map (fun k => Z.of_nat (List.length (index_get idx k))) (varying_coordinates idx) ++ [n].
Proof.
  intros idx stream dv Hdv.
  destruct (DataVariable_inv idx stream dv Hdv)
    as [leader [rest [coords [sizes [n [attrs
        [Hs [Hc [_ [_ [Hdims [Hsizes [Hn [Hshape _]]]]]]]]]]]]]].
  pose proof (coordinates_dimension_sizes idx coords Hc) as Hd.
  split.
  - rewrite Hdims. f_equal.
    replace (map fst (filter is_dimension coords))
      with (map fst (map size_entry (filter is_dimension coords)))
      by (rewrite map_map; reflexivity).
    rewrite Hd, map_map. simpl. apply map_id.
  - exists leader, rest, n. repeat split; auto. rewrite Hshape. f_equal.
    rewrite mapM_coordinate_size in Hsizes.
    + injection Hsizes as <-.
      replace (map (fun kc => Z.of_nat (cdata_size (v_data (snd kc)))) (filter is_dimension coords))
        with (map (fun p => Z.of_nat (snd p)) (map size_entry (filter is_dimension coords)))
        by (rewrite map_map; reflexivity).
      rewrite Hd, map_map. reflexivity.
    + exact (coordinates_loop_nodup idx _ [] coords Hc (NoDup_nil _)).
    + intros x Hx. now apply filter_In in Hx.
Qed.

(** ** [dict_merge] *)

Section DictMerge.
Context {K V : Type} (keqb : K -> K -> bool) (veqb : V -> V -> bool).
Hypothesis keqb_spec : forall a b, keqb a b = true <-> a = b.

Lemma dict_merge_err : forall (u m : list (K * V)) e,
    dict_merge keqb veqb m u = Err e -> e = ValueError.
Proof.
  induction u as [|[k v] u IH]; intros m e H; simpl in H; [discriminate|].
  destruct (od_get keqb k m) as [v'|]; [destruct (veqb v' v); [eauto|congruence]|eauto].
Qed.

Lemma dict_merge_keeps : forall (u m r : list (K * V)),
    dict_merge keqb veqb m u = Ok r ->
    forall k v, od_get keqb k m = Some v -> od_get keqb k r = Some v.
Proof.
  induction u as [|[k0 v0] u IH]; intros m r H k v Hk; simpl in H.
  - now injection H as <-.
  - destruct (od_get keqb k0 m) as [v'|] eqn:E.
    + destruct (veqb v' v0); [|discriminate]. eapply IH; eauto.
    + apply (IH _ _ H). destruct (keqb_spec k k0) as [_ _].
      destruct (keqb k k0) eqn:Ekk.
      * apply keqb_spec in Ekk. subst. congruence.
      * rewrite (od_get_set_neq keqb keqb_spec); [exact Hk|].
        intro; subst. now rewrite (keqb_refl keqb keqb_spec) in Ekk.
Qed.

Lemma dict_merge_covers : forall (u m r : list (K * V)),
    dict_merge keqb veqb m u = Ok r ->
    forall k v, In (k, v) u ->
    exists v', od_get keqb k r = Some v' /\ (v' = v \/ veqb v' v = true).
Proof.
  induction u as [|[k0 v0] u IH]; intros m r H k v Hin; [destruct Hin|]. simpl in H.
  destruct Hin as [Heq|Hin].
  - injection Heq as -> ->.
    destruct (od_get keqb k m) as [v'|] eqn:E.
    + destruct (veqb v' v) eqn:Ev; [|discriminate].
      exists v'. split; [exact (dict_merge_keeps _ _ _ H _ _ E)|now right].
    + exists v. split; [|now left]. apply (dict_merge_keeps _ _ _ H).
      apply (od_get_set_eq keqb keqb_spec).
  - destruct (od_get keqb k0 m) as [v'|]; [destruct (veqb v' v0); [|discriminate]|];
      eapply IH; eauto.
Qed.

Lemma dict_merge_conflict : forall (u m : list (K * V)) k v v',
    In (k, v) u -> od_get keqb k m = Some v' -> veqb v' v = false ->
    dict_merge keqb veqb m u = Err ValueError.
Proof.
  induction u as [|[k0 v0] u IH]; intros m k v v' Hin Hm Hv; [destruct Hin|]. simpl.
  destruct (od_get keqb k0 m) as [w|] eqn:E.
  - destruct (veqb w v0) eqn:Ew; [|reflexivity].
    destruct Hin as [Heq|Hin].
    + injection Heq as -> ->. congruence.
    + eapply IH; eauto.
  - destruct Hin as [Heq|Hin].
    + injection Heq as -> ->. congruence.
    + eapply IH; [exact Hin| |exact Hv].
      rewrite (od_get_set_neq keqb keqb_spec); [exact Hm|].
      intro; subst. congruence.
Qed.

Lemma dict_merge_agree : forall (u m : list (K * V)),
    NoDup (map fst u) ->
    (forall k v v', In (k, v) u -> od_get keqb k m = Some v' -> veqb v' v = true) ->
    exists r, dict_merge keqb veqb m u = Ok r.
Proof.
  induction u as [|[k0 v0] u IH]; intros m Hnd Hagree; simpl; [now exists m|].
  inversion Hnd as [|? ? Hk0 Hnd']; subst.
  destruct (od_get keqb k0 m) as [v'|] eqn:E.
  - rewrite (Hagree k0 v0 v' (or_introl eq_refl) E).
    apply IH; [exact Hnd'|]. intros k v w Hin Hw. apply (Hagree k v w); [right; exact Hin|exact Hw].
  - apply IH; [exact Hnd'|]. intros k v w Hin Hw.
    rewrite (od_get_set_neq keqb keqb_spec) in Hw.
    + apply (Hagree k v w); [right; exact Hin|exact Hw].
    + intro; subst. apply Hk0. apply in_map_iff. now exists (k0, v).
Qed.
End DictMerge.

(** ** The dataset builder *)

Definition dataset_index (stream : list message) : index := index_fromstream stream ALL_KEYS.

(** The [(param_id, short_name)] pairs iterated by [build_dataset_components]. *)
Definition dataset_pairs (stream : list message) : list (value * value) :=
  combine (index_get (dataset_index stream) "paramId") (index_get (dataset_index stream) "shortName").

(** The variable built for one parameter id. *)
Definition variable_of (stream : list message) (param_id : value) : result data_variable :=
  DataVariable (subindex (dataset_index stream) "paramId" param_id) stream.

Lemma components_loop_dims : forall idx stream pairs dims0 vars0 dims vars,
    components_loop idx stream pairs dims0 vars0 = Ok (dims, vars) ->
    (forall d v, od_get String.eqb d dims0 = Some v -> od_get String.eqb d dims = Some v)
    /\ (forall pid sn var, In (pid, sn) pairs ->
          DataVariable (subindex idx "paramId" pid) stream = Ok var ->
          forall d sz, In (d, sz) (combine (dv_dimensions var) (dv_shape var)) ->
          od_get String.eqb d dims = Some sz).
Proof.
  intros idx stream pairs. induction pairs as [|[pid0 sn0] rest IH];
    intros dims0 vars0 dims vars H; simpl in H.
  - injection H as <- <-. split; [auto|]. intros ? ? ? [].
  - inv_ok H. destruct (IH _ _ _ _ H) as [Hkeep Hrest]. split.
    + intros d v Hd. apply Hkeep. exact (dict_merge_keeps String.eqb Z.eqb String.eqb_eq _ _ _ E0 d v Hd).
    + intros pid sn var [Heq|Hin] Hvar d sz Hdsz.
      * injection Heq as -> ->. rewrite E in Hvar. injection Hvar as <-.
        destruct (dict_merge_covers String.eqb Z.eqb String.eqb_eq _ _ _ E0 d sz Hdsz)
          as [w [Hw [<-|Hzw]]].
        -- now apply Hkeep.
        -- apply Z.eqb_eq in Hzw. subst w. now apply Hkeep.
      * exact (Hrest pid sn var Hin Hvar d sz Hdsz).
Qed.

(** C5: [dict_merge] leaves a key already present with an equal value
    unchanged, inserts an absent key, and raises on a present key with a
    different value, for the dimensions mapping and for the variables
    mapping; hence in a built dataset every dimension of every variable maps
    to that variable's size for it, and two variables giving one dimension
    name two sizes make [build_dataset_components] fail. *)
Theorem dict_merge_first_writer_wins :
    (forall (m u r : dimensions_map), dict_merge String.eqb Z.eqb m u = Ok r ->
       (forall k v, od_get String.eqb k m = Some v -> od_get String.eqb k r = Some v)
       /\ (forall k v, In (k, v) u -> od_get String.eqb k r = Some v))
    /\ (forall (m u : dimensions_map) k v v', In (k, v) u -> od_get String.eqb k m = Some v' ->
          v' <> v -> dict_merge String.eqb Z.eqb m u = Err ValueError)
    /\ (forall (m u : dimensions_map), NoDup (map fst u) ->
          (forall k v v', In (k, v) u -> od_get String.eqb k m = Some v' -> v' = v) ->
          exists r, dict_merge String.eqb Z.eqb m u = Ok r)
    /\ (forall (m u r : variables_map), dict_merge value_eqb entry_eqb m u = Ok r ->
          (forall k v, od_get value_eqb k m = Some v -> od_get value_eqb k r = Some v)
          /\ (forall k v, In (k, v) u ->
                exists v', od_get value_eqb k r = Some v' /\ (v' = v \/ entry_eqb v' v = true)))
    /\ (forall (m u : variables_map) k v v', In (k, v) u -> od_get value_eqb k m = Some v' ->
          entry_eqb v' v = false -> dict_merge value_eqb entry_eqb m u = Err ValueError)
    /\ (forall stream gk version dims vars attrs,
          build_dataset_components stream gk version = Ok (dims, vars, attrs) ->
          forall pid sn var, In (pid, sn) (dataset_pairs stream) -> variable_of stream pid = Ok var ->
          forall d sz, In (d, sz) (combine (dv_dimensions var) (dv_shape var)) ->
          od_get String.eqb d dims = Some sz)
    /\ (forall stream gk version pid1 sn1 pid2 sn2 var1 var2 d sz1 sz2,
          In (pid1, sn1) (dataset_pairs stream) -> variable_of stream pid1 = Ok var1 ->
          In (pid2, sn2) (dataset_pairs stream) -> variable_of stream pid2 = Ok var2 ->
          In (d, sz1) (combine (dv_dimensions var1) (dv_shape var1)) ->
          In (d, sz2) (combine (dv_dimensions var2) (dv_shape var2)) ->
          sz1 <> sz2 ->
          forall x, build_dataset_components stream gk version <> Ok x).
Proof.
  assert (Hbuild : forall stream gk version dims vars attrs,
             build_dataset_components stream gk version = Ok (dims, vars, attrs) ->
             forall pid sn var, In (pid, sn) (dataset_pairs stream) -> variable_of stream pid = Ok var ->
             forall d sz, In (d, sz) (combine (dv_dimensions var) (dv_shape var)) ->
             od_get String.eqb d dims = Some sz).
  { intros stream gk version dims vars attrs H. unfold build_dataset_components in H.
    inv_ok H. injection H as Hd _ _. destruct a as [dims' vars']. simpl in Hd. subst dims'.
    exact (proj2 (components_loop_dims _ _ _ _ _ _ _ E)). }
  split; [|split; [|split; [|split; [|split; [|split]]]]].
  - intros m u r H. split.
    + exact (dict_merge_keeps String.eqb Z.eqb String.eqb_eq u m r H).
    + intros k v Hin.
      destruct (dict_merge_covers String.eqb Z.eqb String.eqb_eq u m r H k v Hin)
        as [w [Hw [<-|Hzw]]]; [exact Hw|]. apply Z.eqb_eq in Hzw. now subst.
  - intros m u k v v' Hin Hm Hne.
    apply (dict_merge_conflict String.eqb Z.eqb String.eqb_eq u m k v v' Hin Hm).
    now apply Z.eqb_neq.
  - intros m u Hnd Hagree. apply (dict_merge_agree String.eqb Z.eqb String.eqb_eq u m Hnd).
    intros k v v' Hin Hm. apply Z.eqb_eq. eauto.
  - intros m u r H. split.
    + exact (dict_merge_keeps value_eqb entry_eqb value_eqb_spec u m r H).
    + exact (dict_merge_covers value_eqb entry_eqb value_eqb_spec u m r H).
  - intros m u k v v' Hin Hm Hne.
    exact (dict_merge_conflict value_eqb entry_eqb value_eqb_spec u m k v v' Hin Hm Hne).
  - exact Hbuild.
  - intros stream gk version pid1 sn1 pid2 sn2 var1 var2 d sz1 sz2 H1 V1 H2 V2 D1 D2 Hne
      [[dims vars] attrs] Hb.
    pose proof (Hbuild _ _ _ _ _ _ Hb _ _ _ H1 V1 _ _ D1) as E1.
    pose proof (Hbuild _ _ _ _ _ _ Hb _ _ _ H2 V2 _ _ D2) as E2.
    congruence.
Qed.

(** ** Materialisation *)

Lemma nat_list_eqb_spec : forall p q, nat_list_eqb p q = true <-> p = q.
Proof.
  induction p as [|a p IH]; intros [|b q]; simpl; split; intro H; try discriminate; auto.
  - apply andb_true_iff in H. destruct H as [Hab Hpq].
    apply Nat.eqb_eq in Hab. apply IH in Hpq. now subst.
  - injection H as -> ->. apply andb_true_iff. split; [apply Nat.eqb_refl|now apply IH].
Qed.

(** What one bucket writes: its multi-index and the float32 row decoded
    from the message at its first offset. *)
Definition bucket_row (dv : data_variable) (n : nat) (b : bucket)
  : result (list nat * list spec_float) :=
  let* p := header_indexes dv (fst b) in
  let* off := match snd b with o :: _ => Ok o | [] => Err IndexError end in
  let* message := message_fromfile (dv_stream dv) off in
  let* row := broadcast_row (m_values message) n in
  Ok (p, row).

Definition write_row (a : rows) (p : list nat) (row : list spec_float) : rows :=
  fun q => if nat_list_eqb q p then row else a q.

Lemma fill_cons : forall dv n a b rest af,
    fill dv n a (b :: rest) = Ok af ->
    exists p row, bucket_row dv n b = Ok (p, row) /\ fill dv n (write_row a p row) rest = Ok af.
Proof.
  intros dv n a [h offs] rest af H. simpl in H. inv_ok H.
  unfold setitem in E2. apply bind_ok in E2. destruct E2 as [row [Erow E2]].
  injection E2 as <-.
  exists a0, row. split; [|exact H].
  unfold bucket_row. simpl. rewrite E. simpl. rewrite E0. simpl. rewrite E1. simpl.
  now rewrite Erow.
Qed.

Lemma fill_rows_ok : forall dv n l a af,
    fill dv n a l = Ok af -> forall b, In b l -> exists p row, bucket_row dv n b = Ok (p, row).
Proof.
  intros dv n l. induction l as [|b0 l IH]; intros a af H b Hin; [destruct Hin|].
  destruct (fill_cons _ _ _ _ _ _ H) as [p [row [Hb Hf]]].
  destruct Hin as [<-|Hin]; [eauto|]. exact (IH _ _ Hf b Hin).
Qed.

Lemma fill_untouched : forall dv n l a af q,
    fill dv n a l = Ok af ->
    (forall b p row, In b l -> bucket_row dv n b = Ok (p, row) -> p <> q) ->
    af q = a q.
Proof.
  intros dv n l. induction l as [|b0 l IH]; intros a af q H Hnot; simpl in H.
  - now injection H as <-.
  - destruct (fill_cons _ _ _ _ _ _ H) as [p [row [Hb Hf]]].
    rewrite (IH _ _ q Hf) by (intros; eapply Hnot; [right|]; eauto).
    unfold write_row. destruct (nat_list_eqb q p) eqn:E; [|reflexivity].
    apply nat_list_eqb_spec in E. exfalso. exact (Hnot b0 p row (or_introl eq_refl) Hb (eq_sym E)).
Qed.

Lemma fill_keeps_row : forall dv n l a af q row,
    a q = row ->
    fill dv n a l = Ok af ->
    (forall b' p' row', In b' l -> bucket_row dv n b' = Ok (p', row') -> p' = q -> row' = row) ->
    af q = row.
Proof.
  intros dv n l. induction l as [|b l IH]; intros a af q row Ha H Hl; simpl in H.
  - now injection H as <-.
  - destruct (fill_cons _ _ _ _ _ _ H) as [p [r [Hb Hf]]].
    apply (IH (write_row a p r) af q row); [|exact Hf|].
    + unfold write_row. destruct (nat_list_eqb q p) eqn:E; [|exact Ha].
      apply nat_list_eqb_spec in E. subst p. exact (Hl b q r (or_introl eq_refl) Hb eq_refl).
    + intros b' p' row' Hin. apply Hl. now right.
Qed.

Lemma fill_last_writer : forall dv n l1 b l2 a af q row,
    fill dv n a (l1 ++ b :: l2) = Ok af ->
    bucket_row dv n b = Ok (q, row) ->
    (forall b' p' row', In b' l2 -> bucket_row dv n b' = Ok (p', row') -> p' = q -> row' = row) ->
    af q = row.
Proof.
  intros dv n l1. induction l1 as [|b1 l1 IH]; intros b l2 a af q row H Hb Hlast; simpl in H.
  - destruct (fill_cons _ _ _ _ _ _ H) as [p [row0 [Hb0 Hf]]].
    rewrite Hb in Hb0. injection Hb0 as <- <-.
    apply (fill_keeps_row dv n l2 (write_row a q row) af q row); auto.
    unfold write_row. now rewrite (proj2 (nat_list_eqb_spec q q) eq_refl).
  - destruct (fill_cons _ _ _ _ _ _ H) as [p [row0 [Hb0 Hf]]]. eauto.
Qed.

(** ** The offset ordering of [build_array] *)

Lemma lex_ltb_irrefl : forall l, lex_ltb l l = false.
Proof.
  induction l as [|a l IH]; simpl; [reflexivity|]. now rewrite Z.ltb_irrefl, Z.eqb_refl, IH.
Qed.

Lemma lex_ltb_trans : forall l1 l2 l3,
    lex_ltb l1 l2 = true -> lex_ltb l2 l3 = true -> lex_ltb l1 l3 = true.
Proof.
  induction l1 as [|a l1 IH]; intros [|b l2] [|c l3] H12 H23; simpl in *; try discriminate; auto.
  apply orb_true_iff in H12, H23. apply orb_true_iff.
  destruct H12 as [H12|H12]; destruct H23 as [H23|H23].
  - left. apply Z.ltb_lt in H12, H23. apply Z.ltb_lt. lia.
  - apply andb_true_iff in H23. destruct H23 as [E _]. apply Z.eqb_eq in E. subst. now left.
  - apply andb_true_iff in H12. destruct H12 as [E _]. apply Z.eqb_eq in E. subst. now left.
  - apply andb_true_iff in H12, H23. destruct H12 as [E1 H12]; destruct H23 as [E2 H23].
    right. apply andb_true_iff. split; [|eauto].
    apply Z.eqb_eq in E1, E2. apply Z.eqb_eq. congruence.
Qed.

Lemma lex_ltb_total : forall l1 l2, lex_ltb l1 l2 = false -> lex_ltb l2 l1 = false -> l1 = l2.
Proof.
  induction l1 as [|a l1 IH]; intros [|b l2] H12 H21; simpl in *; try discriminate; auto.
  apply orb_false_iff in H12, H21. destruct H12 as [L12 E12]; destruct H21 as [L21 E21].
  apply Z.ltb_ge in L12, L21. assert (a = b) by lia. subst b.
  rewrite Z.eqb_refl in E12, E21. simpl in E12, E21. f_equal. auto.
Qed.

(** [b] is not after [c] in Python's ordering of the offset lists. *)
Definition offsets_le (b c : bucket) : Prop := lex_ltb (snd c) (snd b) = false.

Lemma offsets_le_trans : forall b c d, offsets_le b c -> offsets_le c d -> offsets_le b d.
Proof.
  unfold offsets_le. intros b c d Hbc Hcd.
  destruct (lex_ltb (snd d) (snd b)) eqn:Edb; [|reflexivity]. exfalso.
  destruct (lex_ltb (snd b) (snd c)) eqn:Ebc.
  - pose proof (lex_ltb_trans _ _ _ Edb Ebc). congruence.
  - pose proof (lex_ltb_total _ _ Ebc Hbc) as Heq. rewrite Heq in Edb. congruence.
Qed.

Lemma insert_bucket_perm : forall b l, Permutation (insert_bucket b l) (b :: l).
Proof.
  intros b l. induction l as [|c l IH]; simpl; [reflexivity|].
  destruct (lex_ltb (snd b) (snd c)); [reflexivity|].
  rewrite IH. apply perm_swap.
Qed.

Lemma sort_buckets_perm : forall l, Permutation (sort_buckets l) l.
Proof.
  intro l. unfold sort_buckets.
  assert (H : forall acc, Permutation (fold_left (fun acc b => insert_bucket b acc) l acc) (l ++ acc)).
  { induction l as [|b l IH]; intro acc; simpl; [reflexivity|].
    rewrite IH, insert_bucket_perm. apply Permutation_sym, Permutation_middle. }
  rewrite H. now rewrite app_nil_r.
Qed.

Lemma insert_bucket_sorted : forall b l,
    Sorted offsets_le l -> Sorted offsets_le (insert_bucket b l).
Proof.
  intros b l. induction l as [|c l IH]; intro Hs; simpl.
  - repeat constructor.
  - destruct (lex_ltb (snd b) (snd c)) eqn:E.
    + constructor; [exact Hs|]. constructor. unfold offsets_le.
      destruct (lex_ltb (snd c) (snd b)) eqn:E'; [|reflexivity].
      pose proof (lex_ltb_trans _ _ _ E E'). now rewrite lex_ltb_irrefl in H.
    + inversion Hs as [|? ? Hs' Hhd]; subst. constructor; [now apply IH|].
      destruct l as [|d l]; simpl.
      * constructor. exact E.
      * destruct (lex_ltb (snd b) (snd d)); constructor; [exact E|].
        now inversion Hhd.
Qed.

Lemma sort_buckets_sorted : forall l, StronglySorted offsets_le (sort_buckets l).
Proof.
  intro l. apply Sorted_StronglySorted; [exact offsets_le_trans|].
  unfold sort_buckets.
  assert (H : forall acc, Sorted offsets_le acc ->
                Sorted offsets_le (fold_left (fun acc b => insert_bucket b acc) l acc)).
  { induction l as [|b l IH]; intros acc Hacc; simpl; [exact Hacc|].
    apply IH. now apply insert_bucket_sorted. }
  apply H. constructor.
Qed.

Lemma build_array_inv : forall dv arr,
    build_array dv = Ok arr ->
    exists n data, trailing_size dv = Ok n
      /\ fill dv n (np_full_nan n) (sort_buckets (offsets (dv_index dv))) = Ok data
      /\ arr = fun q => map (missing_subst (missing_value (dv_attributes dv))) (data q).
Proof.
  intros dv arr H. unfold build_array in H. inv_ok H. injection H as <-. eauto.
Qed.

Lemma fill_complete : forall dv n l a,
    (forall b, In b l -> exists p row, bucket_row dv n b = Ok (p, row)) ->
    exists af, fill dv n a l = Ok af.
Proof.
  intros dv n l. induction l as [|[h offs] l IH]; intros a Hall; simpl; [now exists a|].
  destruct (Hall (h, offs) (or_introl eq_refl)) as [p [row Hb]].
  unfold bucket_row in Hb. simpl in Hb. inv_ok Hb. injection Hb as <- <-.
  rewrite E. simpl. rewrite E0. simpl. rewrite E1. simpl. unfold setitem. rewrite E2. simpl.
  apply IH. intros b Hin. apply Hall. now right.
Qed.

Lemma bucket_row_header : forall dv n b p row,
    bucket_row dv n b = Ok (p, row) -> header_indexes dv (fst b) = Ok p.
Proof.
  intros dv n b p row H. unfold bucket_row in H. inv_ok H. injection H as <- _. exact E.
Qed.

Lemma bucket_row_first : forall dv n h o offs msg p row,
    header_indexes dv h = Ok p ->
    message_fromfile (dv_stream dv) o = Ok msg ->
    broadcast_row (m_values msg) n = Ok row ->
    bucket_row dv n (h, o :: offs) = Ok (p, row).
Proof.
  intros dv n h o offs msg p row Hp Hm Hr. unfold bucket_row. simpl.
  rewrite Hp. simpl. rewrite Hm. simpl. now rewrite Hr.
Qed.


(** The row of a bucket that no other bucket shares is the row decoded at
    its first offset, after the missing-value substitution. *)
Lemma build_array_unique_row : forall dv arr n h o offs msg p row,
    build_array dv = Ok arr ->
    trailing_size dv = Ok n ->
    In (h, o :: offs) (offsets (dv_index dv)) ->
    header_indexes dv h = Ok p ->
    (forall b, In b (offsets (dv_index dv)) -> header_indexes dv (fst b) = Ok p ->
               b = (h, o :: offs)) ->
    message_fromfile (dv_stream dv) o = Ok msg ->
    broadcast_row (m_values msg) n = Ok row ->
    arr p = map (missing_subst (missing_value (dv_attributes dv))) row.
Proof.
  intros dv arr n h o offs msg p row Harr Hn Hin Hp Huniq Hmsg Hrow.
  destruct (build_array_inv dv arr Harr) as [n' [data [Hn' [Hfill ->]]]].
  rewrite Hn in Hn'. injection Hn' as <-. f_equal.
  assert (Hs : In (h, o :: offs) (sort_buckets (offsets (dv_index dv))))
    by (eapply Permutation_in; [symmetry; apply sort_buckets_perm|exact Hin]).
  apply in_split in Hs. destruct Hs as [l1 [l2 Hs]]. rewrite Hs in Hfill.
  apply (fill_last_writer dv n l1 (h, o :: offs) l2 _ _ p row Hfill).
  - now apply bucket_row_first with msg.
  - intros b' p' row' Hb' Hr' ->.
    assert (In b' (offsets (dv_index dv))).
    { apply (Permutation_in _ (sort_buckets_perm _)). rewrite Hs.
      apply in_or_app. right. now right. }
    rewrite (Huniq b' H (bucket_row_header _ _ _ _ _ Hr')) in Hr'.
    rewrite (bucket_row_first dv n h o offs msg p row Hp Hmsg Hrow) in Hr'. congruence.
Qed.

Definition is_f32_value (x : spec_float) : Prop := x = S754_nan \/ exists y, x = to_float32 y.

Lemma fill_f32 : forall dv n l a af,
    fill dv n a l = Ok af ->
    (forall q x, In x (a q) -> is_f32_value x) -> forall q x, In x (af q) -> is_f32_value x.
Proof.
  intros dv n l. induction l as [|b l IH]; intros a af H Ha; simpl in H.
  - now injection H as <-.
  - destruct (fill_cons _ _ _ _ _ _ H) as [p [row [Hb Hf]]].
    apply (IH _ _ Hf). intros q x Hx. unfold write_row in Hx.
    destruct (nat_list_eqb q p); [|eauto].
    unfold bucket_row in Hb. inv_ok Hb. injection Hb as _ <-.
    unfold broadcast_row in E2. right.
    destruct (m_values a2) as [|v [|w vs]] eqn:Ev.
    + destruct (Nat.eqb _ n); [|discriminate]. injection E2 as <-. destruct Hx.
    + injection E2 as <-. apply repeat_spec in Hx. now exists v.
    + destruct (Nat.eqb _ n); [|discriminate]. injection E2 as <-.
      change (In x (map to_float32 (v :: w :: vs))) in Hx.
      apply in_map_iff in Hx. destruct Hx as [y [<- _]]. now exists y.
Qed.

Lemma missing_subst_nan : forall mv, missing_subst mv S754_nan = S754_nan.
Proof. intros [m|]; simpl; [destruct m|]; reflexivity. Qed.

Lemma missing_subst_repeat_nan : forall mv n,
    map (missing_subst mv) (repeat S754_nan n) = repeat S754_nan n.
Proof.
  intros mv n. induction n as [|n IHn]; [reflexivity|].
  cbn [map repeat]. now rewrite missing_subst_nan, IHn.
Qed.

Lemma missing_subst_not_missing : forall m x, SFeqb (missing_subst (Some m) x) m = false.
Proof.
  intros m x. simpl. destruct (SFeqb x m) eqn:E; [|exact E]. destruct m; reflexivity.
Qed.

(** C3: in the array returned by [build_array], a row that no bucket of the
    sub-index writes is all NaN; no element equals the missing-value sentinel
    ([missingValue] of the attributes, 9999 when there is none) any more:
    once all records are placed, an element equal to the sentinel is
    rewritten to NaN and any other element is kept; and every element is a
    float32 value (NaN or a double rounded to float32). *)
Theorem build_array_nan_and_missing : forall dv arr n,
    build_array dv = Ok arr ->
    trailing_size dv = Ok n ->
    (forall q, (forall b p, In b (offsets (dv_index dv)) ->
                            header_indexes dv (fst b) = Ok p -> p <> q) ->
               arr q = repeat S754_nan n)
    /\ (od_get String.eqb "missingValue" (dv_attributes dv) = None ->
        missing_value (dv_attributes dv) = Some (int_to_float32 9999))
    /\ (forall z, od_get String.eqb "missingValue" (dv_attributes dv) = Some (VInt z) ->
        missing_value (dv_attributes dv) = Some (int_to_float32 z))
    /\ (forall q x m, missing_value (dv_attributes dv) = Some m -> In x (arr q) ->
                      SFeqb x m = false)
    /\ (exists placed,
          fill dv n (np_full_nan n) (sort_buckets (offsets (dv_index dv))) = Ok placed
          /\ (forall q i x m, missing_value (dv_attributes dv) = Some m ->
                nth_error (placed q) i = Some x -> SFeqb x m = true ->
                nth_error (arr q) i = Some S754_nan)
          /\ (forall q i x, nth_error (placed q) i = Some x ->
                (forall m, missing_value (dv_attributes dv) = Some m -> SFeqb x m = false) ->
                nth_error (arr q) i = Some x))
    /\ (forall q x, In x (arr q) -> is_f32_value x).
Proof.
  intros dv arr n Harr Hn.
  destruct (build_array_inv dv arr Harr) as [n' [data [Hn' [Hfill ->]]]].
  rewrite Hn in Hn'. injection Hn' as <-.
  split; [|split; [|split; [|split; [|split]]]].
  - intros q Hq. rewrite (fill_untouched dv n _ _ _ q Hfill).
    + apply missing_subst_repeat_nan.
    + intros b p row Hin Hb. apply (Hq b p).
      * apply (Permutation_in _ (sort_buckets_perm _)). exact Hin.
      * exact (bucket_row_header _ _ _ _ _ Hb).
  - intro H. unfold missing_value. now rewrite H.
  - intros z H. unfold missing_value. now rewrite H.
  - intros q x m Hm Hx. rewrite Hm in Hx.
    apply in_map_iff in Hx. destruct Hx as [y [<- _]]. apply missing_subst_not_missing.
  - exists data. split; [exact Hfill|]. split.
    + intros q i x m Hm Hx Heq. rewrite nth_error_map, Hx, Hm. cbn [option_map missing_subst]. now rewrite Heq.
    + intros q i x Hx Hne. rewrite nth_error_map, Hx. cbn [option_map].
      destruct (missing_value (dv_attributes dv)) as [m|]; [|reflexivity].
      cbn [missing_subst]. now rewrite (Hne m eq_refl).
  - intros q x Hx. apply in_map_iff in Hx. destruct Hx as [y [<- Hy]].
    assert (Hf : is_f32_value y).
    { refine (fill_f32 dv n _ _ _ Hfill _ q y Hy).
      intros q' x' Hx'. unfold np_full_nan in Hx'. left. exact (repeat_spec _ _ _ Hx'). }
    destruct (missing_value (dv_attributes dv)) as [m|]; simpl; [|exact Hf].
    destruct (SFeqb y m); [now left|exact Hf].
Qed.

(** ** Which message wins a position *)

Lemma StronglySorted_app_cons : forall {A} (R : A -> A -> Prop) l1 b l2,
    StronglySorted R (l1 ++ b :: l2) -> forall x, In x l2 -> R b x.
Proof.
  intros A R l1. induction l1 as [|a l1 IH]; intros b l2 H x Hx; simpl in H.
  - apply StronglySorted_inv in H. destruct H as [_ Hf].
    exact (proj1 (Forall_forall _ _) Hf x Hx).
  - apply StronglySorted_inv in H. exact (IH b l2 (proj1 H) x Hx).
Qed.

Lemma StronglySorted_weaken : forall {A} (R R' : A -> A -> Prop) l,
    (forall x y, R x y -> R' x y) -> StronglySorted R l -> StronglySorted R' l.
Proof.
  intros A R R' l HR H. induction H as [|a l Hs IH Hf]; constructor; [exact IH|].
  eapply Forall_impl; [|exact Hf]. exact (HR a).
Qed.

(** The first offsets of two buckets in Python's order of their offset lists. *)
Definition first_offset_le (b c : bucket) : Prop :=
  match snd b, snd c with
  | o1 :: _, o2 :: _ => (o1 <= o2)%Z
  | _, _ => True
  end.

Lemma offsets_le_first : forall b c, offsets_le b c -> first_offset_le b c.
Proof.
  intros [h1 [|o1 r1]] [h2 [|o2 r2]]; unfold offsets_le, first_offset_le; simpl; auto.
  intro H. apply orb_false_iff in H. destruct H as [H _]. apply Z.ltb_ge in H. exact H.
Qed.

(** The row of a position is the one of the bucket with the largest offset
    list among those placed there. *)
Lemma build_array_last_row : forall dv arr n h o offs msg p row,
    build_array dv = Ok arr ->
    trailing_size dv = Ok n ->
    In (h, o :: offs) (offsets (dv_index dv)) ->
    header_indexes dv h = Ok p ->
    (forall b, In b (offsets (dv_index dv)) -> header_indexes dv (fst b) = Ok p ->
               b = (h, o :: offs) \/ lex_ltb (snd b) (o :: offs) = true) ->
    message_fromfile (dv_stream dv) o = Ok msg ->
    broadcast_row (m_values msg) n = Ok row ->
    arr p = map (missing_subst (missing_value (dv_attributes dv))) row.
Proof.
  intros dv arr n h o offs msg p row Harr Hn Hin Hp Hlast Hmsg Hrow.
  destruct (build_array_inv dv arr Harr) as [n' [data [Hn' [Hfill ->]]]].
  rewrite Hn in Hn'. injection Hn' as <-. f_equal.
  assert (Hs : In (h, o :: offs) (sort_buckets (offsets (dv_index dv))))
    by (eapply Permutation_in; [symmetry; apply sort_buckets_perm|exact Hin]).
  apply in_split in Hs. destruct Hs as [l1 [l2 Hs]].
  pose proof (sort_buckets_sorted (offsets (dv_index dv))) as Hsorted.
  rewrite Hs in Hfill, Hsorted.
  apply (fill_last_writer dv n l1 (h, o :: offs) l2 _ _ p row Hfill).
  - now apply bucket_row_first with msg.
  - intros b' p' row' Hb' Hr' ->.
    assert (Hin' : In b' (offsets (dv_index dv))).
    { apply (Permutation_in _ (sort_buckets_perm _)). rewrite Hs.
      apply in_or_app. right. now right. }
    pose proof (StronglySorted_app_cons _ _ _ _ Hsorted b' Hb') as Hle.
    unfold offsets_le in Hle. simpl in Hle.
    destruct (Hlast b' Hin' (bucket_row_header _ _ _ _ _ Hr')) as [->|Hlt].
    + rewrite (bucket_row_first dv n h o offs msg p row Hp Hmsg Hrow) in Hr'. congruence.
    + congruence.
Qed.

(** ** Offsets that [build_array] never reads *)

(** The same variable over another stream of messages. *)
Definition with_stream (dv : data_variable) (s : list message) : data_variable :=
  {| dv_index := dv_index dv; dv_stream := s; dv_attributes := dv_attributes dv;
     dv_coordinates := dv_coordinates dv; dv_dimensions := dv_dimensions dv;
     dv_shape := dv_shape dv |}.

Lemma fill_with_stream : forall dv s n l a,
    (forall h o offs, In (h, o :: offs) l -> message_fromfile s o = message_fromfile (dv_stream dv) o) ->
    fill (with_stream dv s) n a l = fill dv n a l.
Proof.
  intros dv s n l. induction l as [|[h offs] l IH]; intros a Hs; [reflexivity|].
  cbn [fill]. change (header_indexes (with_stream dv s) h) with (header_indexes dv h).
  destruct (header_indexes dv h) as [p|e]; simpl; [|reflexivity].
  destruct offs as [|o offs]; simpl; [reflexivity|].
  rewrite (Hs h o offs (or_introl eq_refl)).
  destruct (message_fromfile (dv_stream dv) o) as [msg|e]; simpl; [|reflexivity].
  destruct (setitem a p (m_values msg) n) as [a'|e]; simpl; [|reflexivity].
  apply IH. intros h' o' offs' Hin. apply (Hs h' o' offs'). now right.
Qed.

Lemma build_array_with_stream : forall dv s,
    (forall h o offs, In (h, o :: offs) (offsets (dv_index dv)) ->
                      message_fromfile s o = message_fromfile (dv_stream dv) o) ->
    build_array (with_stream dv s) = build_array dv.
Proof.
  intros dv s Hs. unfold build_array.
  change (trailing_size (with_stream dv s)) with (trailing_size dv).
  destruct (trailing_size dv) as [n|e]; simpl; [|reflexivity].
  rewrite fill_with_stream; [reflexivity|].
  intros h o offs Hin. apply (Hs h o offs).
  apply (Permutation_in _ (sort_buckets_perm _)). exact Hin.
Qed.

(** ** The first offset of a bucket *)

(** The offset of the first message of [stream] whose header is [h]. *)
Definition first_offset (keys : list string) (stream : list message) (h : list value) : option Z :=
  option_map m_offset (find (fun m => header_eqb (header_of keys m) h) stream).

Lemma header_eqb_spec : forall h1 h2, header_eqb h1 h2 = true <-> h1 = h2.
Proof.
  induction h1 as [|a r IH]; intros [|b s]; simpl; split; intro H;
    try discriminate; try reflexivity.
  - apply andb_true_iff in H. destruct H as [Ha Hr].
    apply value_eqb_spec in Ha. apply IH in Hr. congruence.
  - injection H as -> ->. apply andb_true_iff. split; [apply value_eqb_refl|now apply IH].
Qed.

Lemma find_app : forall {A} (f : A -> bool) l1 l2,
    find f (l1 ++ l2) = match find f l1 with Some x => Some x | None => find f l2 end.
Proof.
  intros A f l1 l2. induction l1 as [|a l1 IH]; simpl; [reflexivity|].
  destruct (f a); [reflexivity|exact IH].
Qed.

Lemma add_offset_in : forall hm o d h os,
    In (h, os) (add_offset hm o d) ->
    In (h, os) d
    \/ (exists os0, In (h, os0) d /\ h = hm /\ os = os0 ++ [o])
    \/ (h = hm /\ os = [o] /\ forall os0, ~ In (hm, os0) d).
Proof.
  intros hm o d. induction d as [|[h' os'] d IH]; intros h os Hin; simpl in Hin.
  - destruct Hin as [Hin|[]]. injection Hin as <- <-. right. right. split; [reflexivity|].
    split; [reflexivity|]. intros os0 [].
  - destruct (header_eqb hm h') eqn:E.
    + apply header_eqb_spec in E. subst h'.
      destruct Hin as [Hin|Hin].
      * injection Hin as <- <-. right. left. exists os'. split; [now left|auto].
      * left. now right.
    + destruct Hin as [Hin|Hin]; [left; now left|].
      destruct (IH h os Hin) as [H|[[os0 [H1 H2]]|[H1 [H2 H3]]]].
      * left. now right.
      * right. left. exists os0. split; [now right|exact H2].
      * right. right. split; [exact H1|]. split; [exact H2|].
        intros os0 [H|H]; [|exact (H3 os0 H)].
        injection H as -> _. rewrite (proj2 (header_eqb_spec hm hm) eq_refl) in E. discriminate.
Qed.

Lemma add_offset_keeps : forall hm o d h os,
    In (h, os) d -> exists os', In (h, os') (add_offset hm o d).
Proof.
  intros hm o d. induction d as [|[h' os'] d IH]; intros h os Hin; [destruct Hin|].
  simpl. destruct (header_eqb hm h'); destruct Hin as [Hin|Hin].
  - injection Hin as <- <-. eexists. now left.
  - exists os. now right.
  - injection Hin as <- <-. eexists. now left.
  - destruct (IH h os Hin) as [os'' H]. exists os''. now right.
Qed.

Lemma add_offset_has : forall hm o d, exists os, In (hm, os) (add_offset hm o d).
Proof.
  intros hm o d. induction d as [|[h' os'] d IH]; simpl.
  - eexists. now left.
  - destruct (header_eqb hm h') eqn:E.
    + apply header_eqb_spec in E. subst h'. eexists. now left.
    + destruct IH as [os H]. exists os. now right.
Qed.

Lemma find_header_none : forall keys pre (d : list bucket) h,
    (forall m, In m pre -> exists os, In (header_of keys m, os) d) ->
    (forall os, ~ In (h, os) d) ->
    find (fun m => header_eqb (header_of keys m) h) pre = None.
Proof.
  intros keys pre d h Hpre Hnot.
  destruct (find (fun m => header_eqb (header_of keys m) h) pre) as [m|] eqn:E; [|reflexivity].
  apply find_some in E. destruct E as [Hm Heq]. apply header_eqb_spec in Heq.
  destruct (Hpre m Hm) as [os Hos]. rewrite Heq in Hos. destruct (Hnot os Hos).
Qed.

Lemma find_header_some : forall keys pre h m,
    In m pre -> header_of keys m = h ->
    exists x, find (fun m => header_eqb (header_of keys m) h) pre = Some x.
Proof.
  intros keys pre h m Hm Hh.
  destruct (find (fun m => header_eqb (header_of keys m) h) pre) as [x|] eqn:E; [now exists x|].
  pose proof (find_none _ _ E m Hm) as H. simpl in H.
  rewrite (proj2 (header_eqb_spec _ _) Hh) in H. discriminate.
Qed.

Lemma index_fold_heads : forall keys stream pre (d : list bucket),
    (forall h os, In (h, os) d -> hd_error os = first_offset keys pre h) ->
    (forall m, In m pre -> exists os, In (header_of keys m, os) d) ->
    (forall h os, In (h, os) d -> exists m, In m pre /\ header_of keys m = h) ->
    forall h os,
      In (h, os) (fold_left (fun d m => add_offset (header_of keys m) (m_offset m) d) stream d) ->
      hd_error os = first_offset keys (pre ++ stream) h.
Proof.
  intros keys stream. induction stream as [|m stream IH]; intros pre d Hhd Hpre Hback h os Hin.
  - simpl in Hin. rewrite app_nil_r. exact (Hhd h os Hin).
  - simpl in Hin. replace (pre ++ m :: stream) with ((pre ++ [m]) ++ stream) by (rewrite <- app_assoc; reflexivity).
    apply (IH (pre ++ [m]) (add_offset (header_of keys m) (m_offset m) d)); [| | |exact Hin]; clear h os Hin.
    + intros h os Hin. unfold first_offset. rewrite find_app.
      destruct (add_offset_in _ _ _ _ _ Hin) as [Hold|[[os0 [Hin0 [-> ->]]]|[-> [-> Hnot]]]].
      * rewrite (Hhd h os Hold). unfold first_offset.
        destruct (find (fun m0 => header_eqb (header_of keys m0) h) pre) as [x|] eqn:E;
          [reflexivity|]. simpl.
        destruct (header_eqb (header_of keys m) h) eqn:Eh; [|reflexivity].
        apply header_eqb_spec in Eh.
        destruct (Hback h os Hold) as [m' [Hm' Hh']].
        destruct (find_header_some keys pre h m' Hm' Hh') as [x Hx]. congruence.
      * pose proof (Hhd _ _ Hin0) as H0. unfold first_offset in H0.
        destruct os0 as [|o0 os0].
        -- simpl in H0 |- *.
           destruct (find (fun m0 => header_eqb (header_of keys m0) (header_of keys m)) pre);
             [discriminate|].
           simpl. now rewrite (proj2 (header_eqb_spec _ _) eq_refl).
        -- simpl in H0 |- *.
           destruct (find (fun m0 => header_eqb (header_of keys m0) (header_of keys m)) pre);
             [exact H0|discriminate].
      * rewrite (find_header_none keys pre d _ Hpre Hnot). simpl.
        now rewrite (proj2 (header_eqb_spec _ _) eq_refl).
    + intros m' Hm'. apply in_app_or in Hm'. destruct Hm' as [Hm'|[<-|[]]].
      * destruct (Hpre m' Hm') as [os Hos]. exact (add_offset_keeps _ _ _ _ _ Hos).
      * apply add_offset_has.
    + intros h os Hin.
      destruct (add_offset_in _ _ _ _ _ Hin) as [Hold|[[os0 [_ [-> _]]]|[-> _]]].
      * destruct (Hback h os Hold) as [m' [Hm' Hh]]. exists m'.
        split; [apply in_or_app; now left|exact Hh].
      * exists m. split; [apply in_or_app; right; now left|reflexivity].
      * exists m. split; [apply in_or_app; right; now left|reflexivity].
Qed.

Lemma index_fromstream_heads : forall stream keys h os,
    In (h, os) (offsets (index_fromstream stream keys)) ->
    hd_error os = first_offset keys stream h.
Proof.
  intros stream keys h os Hin.
  apply (index_fold_heads keys stream [] []); simpl; tauto.
Qed.

Lemma subindex_offsets : forall idx key v b,
    In b (offsets (subindex idx key v)) -> In b (offsets idx).
Proof. intros idx key v b Hin. simpl in Hin. apply filter_In in Hin. exact (proj1 Hin). Qed.

Lemma get_ok_ok : forall {A} (d : A) r, is_ok r = true -> r = Ok (get_ok d r).
Proof. intros A d [a|e] H; [reflexivity|discriminate]. Qed.

Lemma get_ok_of_ok : forall {A} (d : A) r a, r = Ok a -> get_ok d r = a.
Proof. intros A d r a ->. reflexivity. Qed.

(** ** Claims about materialisation, caching and the dataset *)

Lemma broadcast_row_length : forall values n row,
    broadcast_row values n = Ok row -> List.length row = n.
Proof.
  intros values n row H. unfold broadcast_row in H.
  destruct values as [|v [|w r]].
  - destruct (Nat.eqb_spec (List.length (@nil spec_float)) n); [|discriminate].
    injection H as <-. simpl in *. exact e.
  - injection H as <-. apply repeat_length.
  - destruct (Nat.eqb_spec (List.length (v :: w :: r)) n); [|discriminate].
    injection H as <-. rewrite <- e. simpl. now rewrite length_map.
Qed.

Lemma fill_row_length : forall dv n l a af,
    fill dv n a l = Ok af -> (forall q, List.length (a q) = n) -> forall q, List.length (af q) = n.
Proof.
  intros dv n l. induction l as [|[h offs] rest IH]; intros a af H Ha; simpl in H.
  - injection H as <-. exact Ha.
  - inv_ok H. unfold setitem in E2. inv_ok E2. injection E2 as <-.
    apply (IH _ _ H). intro q. destruct (nat_list_eqb q a0); [|apply Ha].
    exact (broadcast_row_length _ _ _ E3).
Qed.

Lemma fill_ok_bucket_row : forall dv n l a af b,
    fill dv n a l = Ok af -> In b l -> exists p row, bucket_row dv n b = Ok (p, row).
Proof.
  intros dv n l. induction l as [|c rest IH]; intros a af b H Hin; [contradiction|].
  destruct (fill_cons _ _ _ _ _ _ H) as [p [row [Hc Hf]]].
  destruct Hin as [<-|Hin]; [eauto|exact (IH _ _ _ Hf Hin)].
Qed.

Lemma broadcast_row_mismatch : forall values n,
    List.length values <> 1 -> List.length values <> n -> broadcast_row values n = Err ValueError.
Proof.
  intros values n H1 Hn.
  assert (E : Nat.eqb (List.length values) n = false) by (apply Nat.eqb_neq; exact Hn).
  destruct values as [|v [|w r]]; [| simpl in H1; lia |].
  - change (broadcast_row [] n) with
      (if Nat.eqb (List.length (@nil spec_float)) n then Ok (@nil spec_float) else Err ValueError).
    now rewrite E.
  - change (broadcast_row (v :: w :: r) n) with
      (if Nat.eqb (List.length (v :: w :: r)) n then Ok (map to_float32 (v :: w :: r))
       else Err ValueError).
    now rewrite E.
Qed.

(** A bucket whose first record has a payload of neither length 1 nor the
    trailing length makes [build_array] fail. *)
Lemma build_array_payload_mismatch : forall dv n h o offs msg arr,
    trailing_size dv = Ok n ->
    In (h, o :: offs) (offsets (dv_index dv)) ->
    message_fromfile (dv_stream dv) o = Ok msg ->
    List.length (m_values msg) <> 1 -> List.length (m_values msg) <> n ->
    build_array dv <> Ok arr.
Proof.
  intros dv n h o offs msg arr Hn Hin Hmsg H1 H2 Harr.
  destruct (build_array_inv dv arr Harr) as [n' [data [Hn' [Hfill _]]]].
  rewrite Hn in Hn'. injection Hn' as <-.
  assert (Hs : In (h, o :: offs) (sort_buckets (offsets (dv_index dv))))
    by (eapply Permutation_in; [symmetry; apply sort_buckets_perm|exact Hin]).
  destruct (fill_ok_bucket_row _ _ _ _ _ _ Hfill Hs) as [p [row Hb]].
  unfold bucket_row in Hb. simpl in Hb. inv_ok Hb.
  rewrite Hmsg in E0. injection E0 as <-.
  rewrite broadcast_row_mismatch in E1 by assumption. discriminate.
Qed.

Lemma build_array_rows_length : forall dv arr,
    build_array dv = Ok arr -> forall q, List.length (arr q) = Z.to_nat (last (dv_shape dv) 0%Z).
Proof.
  intros dv arr H q. destruct (build_array_inv dv arr H) as (n & data & Hn & Hf & ->).
  unfold trailing_size in Hn. destruct (Z.ltb _ 0); [discriminate|]. injection Hn as <-.
  rewrite length_map. apply (fill_row_length _ _ _ _ _ Hf). intro q'. apply repeat_length.
Qed.



(** C8: when every bucket of the sub-index yields a position and a row,
    [build_array] succeeds, whatever positions coincide; it writes the
    buckets in a permutation of the index sorted by offset lists (hence by
    ascending first offset); and among the buckets placed at one position
    the one with the largest offset list, processed last, gives the row. *)
Theorem build_array_offset_order : forall dv n,
    trailing_size dv = Ok n ->
    (forall b, In b (offsets (dv_index dv)) -> exists p row, bucket_row dv n b = Ok (p, row)) ->
    exists arr, build_array dv = Ok arr
      /\ (exists l, Permutation l (offsets (dv_index dv))
            /\ StronglySorted offsets_le l
            /\ StronglySorted first_offset_le l
            /\ build_array dv =
               (let* data := fill dv n (np_full_nan n) l in
                Ok (fun q => map (missing_subst (missing_value (dv_attributes dv))) (data q))))
      /\ (forall h o offs msg p row,
            In (h, o :: offs) (offsets (dv_index dv)) ->
            header_indexes dv h = Ok p ->
            (forall b, In b (offsets (dv_index dv)) -> header_indexes dv (fst b) = Ok p ->
                       b = (h, o :: offs) \/ lex_ltb (snd b) (o :: offs) = true) ->
            message_fromfile (dv_stream dv) o = Ok msg ->
            broadcast_row (m_values msg) n = Ok row ->
            arr p = map (missing_subst (missing_value (dv_attributes dv))) row).
Proof.
  intros dv n Hn Hrows.
  destruct (fill_complete dv n (sort_buckets (offsets (dv_index dv))) (np_full_nan n)) as [data Hfill].
  { intros b Hb. apply Hrows. apply (Permutation_in _ (sort_buckets_perm _)). exact Hb. }
  assert (Harr : build_array dv =
                 Ok (fun q => map (missing_subst (missing_value (dv_attributes dv))) (data q))).
  { unfold build_array. rewrite Hn. simpl. now rewrite Hfill. }
  eexists. split; [exact Harr|]. split.
  - exists (sort_buckets (offsets (dv_index dv))).
    split; [apply sort_buckets_perm|].
    split; [apply sort_buckets_sorted|].
    split; [exact (StronglySorted_weaken _ _ _ offsets_le_first (sort_buckets_sorted _))|].
    unfold build_array. now rewrite Hn.
  - intros h o offs msg p row Hin Hp Hlast Hmsg Hrow.
    exact (build_array_last_row dv _ n h o offs msg p row Harr Hn Hin Hp Hlast Hmsg Hrow).
Qed.

(** C10: for a variable built from a stream, every bucket's first offset is
    the offset of the first message of the stream with that header tuple;
    [build_array] reads the stream only at the first offset of each bucket
    (replacing the messages at the other offsets changes nothing); and the
    row of a bucket alone at its position is the payload of its first
    record. *)
Theorem build_array_reads_first_offset : forall stream param_id dv s,
    DataVariable (subindex (index_fromstream stream ALL_KEYS) "paramId" param_id) stream = Ok dv ->
    (forall h o offs, In (h, o :: offs) (offsets (dv_index dv)) ->
                      message_fromfile s o = message_fromfile stream o) ->
    build_array (with_stream dv s) = build_array dv
    /\ (forall h os, In (h, os) (offsets (dv_index dv)) ->
                     hd_error os = first_offset ALL_KEYS stream h)
    /\ (forall arr n h o offs msg p row,
          build_array dv = Ok arr ->
          trailing_size dv = Ok n ->
          In (h, o :: offs) (offsets (dv_index dv)) ->
          header_indexes dv h = Ok p ->
          (forall b, In b (offsets (dv_index dv)) -> header_indexes dv (fst b) = Ok p ->
                     b = (h, o :: offs)) ->
          message_fromfile stream o = Ok msg ->
          broadcast_row (m_values msg) n = Ok row ->
          arr p = map (missing_subst (missing_value (dv_attributes dv))) row).
Proof.
  intros stream param_id dv s Hdv Hs.
  destruct (DataVariable_inv _ _ _ Hdv)
    as [leader [rest [coords [sizes [n [attrs [_ [_ [Hidx [Hstream _]]]]]]]]]].
  split; [|split].
  - apply build_array_with_stream. intros h o offs Hin. rewrite Hstream. exact (Hs h o offs Hin).
  - intros h os Hin. rewrite Hidx in Hin. apply subindex_offsets in Hin.
    exact (index_fromstream_heads _ _ _ _ Hin).
  - intros arr n' h o offs msg p row Harr Hn Hin Hp Huniq Hmsg Hrow.
    rewrite <- Hstream in Hmsg.
    exact (build_array_unique_row dv arr n' h o offs msg p row Harr Hn Hin Hp Huniq Hmsg Hrow).
Qed.

(** C9: after an access to [data] returns the array at [loc], [_data] is
    set to [loc] and every later access returns the same [loc] in the same
    state, so neither the stored array nor the number of passes over the
    file changes; the first access stores the result of [build_array]. *)
Theorem data_cached_property : forall dv st loc st1,
    data dv st = Ok (loc, st1) ->
    _data st1 = Some loc
    /\ data dv st1 = Ok (loc, st1)
    /\ (_data st = None ->
        exists arr, build_array dv = Ok arr
          /\ heap st1 = heap st ++ [arr]
          /\ nth_error (heap st1) loc = Some arr
          /\ file_opens st1 = S (file_opens st))
    /\ (forall l, _data st = Some l -> loc = l /\ st1 = st).
Proof.
  intros dv st loc st1 H. unfold data in H.
  destruct (_data st) as [l|] eqn:Ed.
  - injection H as <- <-. split; [exact Ed|]. split; [unfold data; now rewrite Ed|].
    split; [discriminate|]. intros l' E. injection E as <-. now split.
  - destruct (build_array dv) as [arr|e] eqn:Ea; simpl in H; [|discriminate].
    injection H as <- <-. simpl. split; [reflexivity|]. split; [reflexivity|].
    split; [|discriminate].
    intros _. exists arr. split; [reflexivity|]. split; [reflexivity|]. split; [|reflexivity].
    rewrite nth_error_app2 by lia. now rewrite Nat.sub_diag.
Qed.

(** C7: on [stream_shared_short_name] (parameters 1, 2 and 3 with short
    names ['a'], ['a'] and ['b']), [build_dataset_components] pairs the
    distinct parameter ids with the distinct short names position by
    position: it builds the variables of parameters 1 and 2 only, and keys
    the variable of parameter 2, whose short name is ['a'], by ['b']. *)
Theorem build_dataset_components_short_name_mismatch :
    index_get (dataset_index stream_shared_short_name) "paramId" = [VInt 1; VInt 2; VInt 3]
    /\ index_get (dataset_index stream_shared_short_name) "shortName" = [VStr "a"; VStr "b"]
    /\ match build_dataset_components stream_shared_short_name GLOBAL_ATTRIBUTES_KEYS "0.0" with
       | Ok (_, vars, _) =>
           variable_summary vars =
           [(VStr "a", Some (VInt 1), Some (VStr "a"));
            (VStr "b", Some (VInt 2), Some (VStr "a"))]
       | Err _ => False
       end.
Proof. split; [|split]; vm_compute; reflexivity. Qed.

(** ** Dates and times *)

Section DateTimeFacts.
Local Open Scope Z_scope.
Definition valid_date (y m d : Z) : Prop :=
  1 <= y <= 9999 /\ 1 <= m <= 12 /\ 1 <= d <= days_in_month y m.

Lemma month_cases : forall m, 1 <= m <= 12 ->
  m = 1 \/ m = 2 \/ m = 3 \/ m = 4 \/ m = 5 \/ m = 6 \/ m = 7 \/ m = 8 \/ m = 9 \/ m = 10 \/ m = 11 \/ m = 12.
Proof. intros; lia. Qed.

Lemma days_in_month_range : forall y m, 1 <= m <= 12 -> 28 <= days_in_month y m <= 31.
Proof.
  intros y m Hm. unfold days_in_month.
  destruct (month_cases m Hm) as [->|[->|[->|[->|[->|[->|[->|[->|[->|[->|[->| ->]]]]]]]]]]];
  destruct (is_leap y); simpl; lia.
Qed.

Lemma days_before_year_succ : forall y,
  days_before_year (y + 1) = days_before_year y + 365 + (if is_leap y then 1 else 0).
Proof.
  intro y. unfold days_before_year, is_leap.
  replace (y + 1 - 1) with y by lia.
  destruct (Z.eqb_spec (y mod 4) 0); destruct (Z.eqb_spec (y mod 100) 0);
  destruct (Z.eqb_spec (y mod 400) 0); cbn; Z.div_mod_to_equations; lia.
Qed.

Ltac month_split m H :=
  destruct (month_cases m H) as [->|[->|[->|[->|[->|[->|[->|[->|[->|[->|[->| ->]]]]]]]]]]].

Lemma days_before_month_step : forall y m m', 1 <= m -> m < m' -> m' <= 12 ->
  days_before_month y m + days_in_month y m <= days_before_month y m'.
Proof.
  intros y m m' H1 H2 H3.
  assert (Hm : 1 <= m <= 12) by lia. assert (Hm' : 1 <= m' <= 12) by lia.
  unfold days_before_month, days_in_month.
  month_split m Hm; month_split m' Hm'; try lia; destruct (is_leap y); simpl; lia.
Qed.

Lemma days_before_month_year : forall y m, 1 <= m <= 12 ->
  days_before_month y m + days_in_month y m <= 365 + (if is_leap y then 1 else 0).
Proof.
  intros y m Hm. unfold days_before_month, days_in_month.
  month_split m Hm; destruct (is_leap y); simpl; lia.
Qed.

Lemma days_before_month_nonneg : forall y m, 1 <= m <= 12 -> 0 <= days_before_month y m.
Proof.
  intros y m Hm. unfold days_before_month.
  month_split m Hm; destruct (is_leap y); simpl; lia.
Qed.

Lemma days_before_year_mono : forall y k, 0 <= k ->
  days_before_year y + 365 * k <= days_before_year (y + k).
Proof.
  intros y k Hk. pattern k. apply natlike_ind; [| |exact Hk].
  - cbv beta. replace (y + 0) with y by lia. lia.
  - intros x Hx IH. replace (y + Z.succ x) with ((y + x) + 1) by lia.
    rewrite days_before_year_succ. destruct (is_leap (y + x)); lia.
Qed.

Lemma ymd2ord_lt : forall y m d y' m' d',
  valid_date y m d -> valid_date y' m' d' ->
  (y < y' \/ (y = y' /\ (m < m' \/ (m = m' /\ d < d')))) ->
  ymd2ord y m d < ymd2ord y' m' d'.
Proof.
  intros y m d y' m' d' (Hy & Hm & Hd) (Hy' & Hm' & Hd') Hlt. unfold ymd2ord.
  destruct Hlt as [Hlt|[-> [Hlt|[-> Hlt]]]].
  - pose proof (days_before_month_year y m Hm).
    pose proof (days_before_year_succ y).
    pose proof (days_before_year_mono (y + 1) (y' - (y + 1)) ltac:(lia)).
    replace (y + 1 + (y' - (y + 1))) with y' in * by lia.
    pose proof (days_before_month_nonneg y' m' Hm').
    destruct (is_leap y); lia.
  - pose proof (days_before_month_step y' m m' ltac:(lia) Hlt ltac:(lia)). lia.
  - lia.
Qed.

Lemma date_digits : forall date,
  date = 10000 * (date / 10000) + 100 * (date / 100 mod 100) + date mod 100.
Proof. intros. Z.div_mod_to_equations. lia. Qed.

Lemma time_digits : forall time, time = 100 * (time / 100) + time mod 100.
Proof. intros. Z.div_mod_to_equations. lia. Qed.

Lemma check_date_fields_ok : forall y m d,
  check_date_fields y m d = Ok tt <-> valid_date y m d.
Proof.
  intros y m d. unfold check_date_fields, valid_date, MINYEAR, MAXYEAR.
  destruct (Z.leb_spec 1 y); destruct (Z.leb_spec y 9999); simpl;
  try (split; [discriminate|lia]).
  destruct (Z.leb_spec 1 m); destruct (Z.leb_spec m 12); simpl;
  try (split; [discriminate|lia]).
  destruct (Z.leb_spec 1 d); destruct (Z.leb_spec d (days_in_month y m)); simpl;
  try (split; [discriminate|lia]).
  split; [lia|reflexivity].
Qed.

Lemma check_date_fields_err : forall y m d,
  check_date_fields y m d = Ok tt \/ check_date_fields y m d = Err ValueError.
Proof.
  intros. unfold check_date_fields.
  repeat match goal with |- context [if ?c then _ else _] => destruct c end; auto.
Qed.

Lemma check_time_fields_ok : forall h mi,
  check_time_fields h mi = Ok tt <-> 0 <= h <= 23 /\ 0 <= mi <= 59.
Proof.
  intros h mi. unfold check_time_fields.
  destruct (Z.leb_spec 0 h); destruct (Z.leb_spec h 23); simpl;
  try (split; [discriminate|lia]).
  destruct (Z.leb_spec 0 mi); destruct (Z.leb_spec mi 59); simpl;
  try (split; [discriminate|lia]).
  split; [lia|reflexivity].
Qed.

Lemma check_time_fields_err : forall h mi,
  check_time_fields h mi = Ok tt \/ check_time_fields h mi = Err ValueError.
Proof.
  intros. unfold check_time_fields.
  repeat match goal with |- context [if ?c then _ else _] => destruct c end; auto.
Qed.

Definition grib_seconds (y m d h mi : Z) : Z :=
  (ymd2ord y m d - ymd2ord 1970 1 1) * 86400 + (h * 3600 + mi * 60).

Definition c_int (x : Z) : Prop := INT_MIN <= x <= INT_MAX.

Lemma parse_c_int_spec : forall x,
  (c_int x /\ parse_c_int x = Ok x) \/ (~ c_int x /\ parse_c_int x = Err OverflowError).
Proof.
  intro x. unfold parse_c_int, c_int.
  destruct (Z.leb_spec INT_MIN x); destruct (Z.leb_spec x INT_MAX); simpl;
    [left; split; [lia|reflexivity]|right; split; [lia|reflexivity]..].
Qed.

Lemma parse_c_int_small : forall x, 0 <= x < 100 -> parse_c_int x = Ok x.
Proof.
  intros x Hx. destruct (parse_c_int_spec x) as [[_ E]|[Hn _]]; [exact E|].
  exfalso. apply Hn. unfold c_int, INT_MIN, INT_MAX. lia.
Qed.

(** With the month, day and minute, which are below 100, parsed. *)
Lemma from_grib_date_time_parsed : forall date time,
  from_grib_date_time date time =
  let* year := parse_c_int (date / 10000) in
  let* hour := parse_c_int (time / 100) in
  let* u := check_date_fields year (date / 100 mod 100) (date mod 100) in
  let* v := check_time_fields hour (time mod 100) in
  Ok ((ymd2ord year (date / 100 mod 100) (date mod 100) - ymd2ord 1970 1 1) * 86400
      + (hour * 3600 + time mod 100 * 60)).
Proof.
  intros date time. unfold from_grib_date_time.
  rewrite (parse_c_int_small (date / 100 mod 100)) by (apply Z.mod_pos_bound; lia).
  rewrite (parse_c_int_small (date mod 100)) by (apply Z.mod_pos_bound; lia).
  rewrite (parse_c_int_small (time mod 100)) by (apply Z.mod_pos_bound; lia).
  destruct (parse_c_int (date / 10000)); reflexivity.
Qed.

Lemma from_grib_date_time_iff : forall date time s,
  from_grib_date_time date time = Ok s <->
  exists y m d h mi,
    date = 10000 * y + 100 * m + d /\ time = 100 * h + mi
    /\ valid_date y m d /\ 0 <= h <= 23 /\ 0 <= mi <= 59
    /\ s = grib_seconds y m d h mi.
Proof.
  intros date time s. rewrite from_grib_date_time_parsed. split.
  - intro H. inv_ok H.
    destruct (parse_c_int_spec (date / 10000)) as [[_ Ey]|[_ Ey]]; rewrite Ey in E;
      [injection E as <-|discriminate].
    destruct (parse_c_int_spec (time / 100)) as [[_ Eh]|[_ Eh]]; rewrite Eh in E0;
      [injection E0 as <-|discriminate].
    destruct a1, a2.
    apply check_date_fields_ok in E1. apply check_time_fields_ok in E2.
    injection H as <-.
    exists (date / 10000), (date / 100 mod 100), (date mod 100), (time / 100), (time mod 100).
    unfold valid_date in E1. repeat split; try apply date_digits; try apply time_digits; lia.
  - intros (y & m & d & h & mi & -> & -> & Hv & Hh & Hmi & ->).
    pose proof Hv as (Hy & Hm & Hd). pose proof (days_in_month_range y m Hm).
    assert (E1 : (10000 * y + 100 * m + d) / 10000 = y) by (Z.div_mod_to_equations; lia).
    assert (E2 : (10000 * y + 100 * m + d) / 100 mod 100 = m) by (Z.div_mod_to_equations; lia).
    assert (E3 : (10000 * y + 100 * m + d) mod 100 = d) by (Z.div_mod_to_equations; lia).
    assert (E4 : (100 * h + mi) / 100 = h) by (Z.div_mod_to_equations; lia).
    assert (E5 : (100 * h + mi) mod 100 = mi) by (Z.div_mod_to_equations; lia).
    rewrite E1, E2, E3, E4, E5.
    destruct (parse_c_int_spec y) as [[_ Ey]|[Hn _]];
      [rewrite Ey|exfalso; apply Hn; unfold c_int, INT_MIN, INT_MAX; lia].
    destruct (parse_c_int_spec h) as [[_ Eh]|[Hn _]];
      [rewrite Eh|exfalso; apply Hn; unfold c_int, INT_MIN, INT_MAX; lia].
    cbn [bind].
    apply check_date_fields_ok in Hv. rewrite Hv. cbn [bind].
    assert (Ht : check_time_fields h mi = Ok tt) by (apply check_time_fields_ok; lia).
    rewrite Ht. reflexivity.
Qed.

Lemma from_grib_date_time_overflow : forall date time,
  from_grib_date_time date time = Err OverflowError <->
  ~ c_int (date / 10000) \/ ~ c_int (time / 100).
Proof.
  intros date time. rewrite from_grib_date_time_parsed.
  destruct (parse_c_int_spec (date / 10000)) as [[Cy Ey]|[Cy Ey]]; rewrite Ey; cbn [bind];
    [|split; [auto|reflexivity]].
  destruct (parse_c_int_spec (time / 100)) as [[Ch Eh]|[Ch Eh]]; rewrite Eh; cbn [bind];
    [|split; [auto|reflexivity]].
  split; [|intros [H|H]; contradiction].
  destruct (check_date_fields_err (date / 10000) (date / 100 mod 100) (date mod 100)) as [E|E];
    rewrite E; cbn [bind]; [|discriminate].
  destruct (check_time_fields_err (time / 100) (time mod 100)) as [E'|E'];
    rewrite E'; cbn [bind]; discriminate.
Qed.

Lemma from_grib_date_time_err : forall date time,
  (exists s, from_grib_date_time date time = Ok s)
  \/ from_grib_date_time date time = Err ValueError
  \/ from_grib_date_time date time = Err OverflowError.
Proof.
  intros. rewrite from_grib_date_time_parsed.
  destruct (parse_c_int_spec (date / 10000)) as [[_ Ey]|[_ Ey]]; rewrite Ey; cbn [bind]; [|auto].
  destruct (parse_c_int_spec (time / 100)) as [[_ Eh]|[_ Eh]]; rewrite Eh; cbn [bind]; [|auto].
  destruct (check_date_fields_err (date / 10000) (date / 100 mod 100) (date mod 100)) as [E|E];
    rewrite E; cbn [bind]; [|auto].
  destruct (check_time_fields_err (time / 100) (time mod 100)) as [E'|E']; rewrite E'; cbn [bind];
    eauto.
Qed.

Lemma from_grib_date_time_lt : forall d1 t1 s1 d2 t2 s2,
  from_grib_date_time d1 t1 = Ok s1 -> from_grib_date_time d2 t2 = Ok s2 ->
  (d1 < d2 \/ (d1 = d2 /\ t1 < t2)) -> s1 < s2.
Proof.
  intros d1 t1 s1 d2 t2 s2 H1 H2 Hlt.
  apply from_grib_date_time_iff in H1, H2.
  destruct H1 as (y & m & d & h & mi & -> & -> & Hv & Hh & Hmi & ->).
  destruct H2 as (y' & m' & d' & h' & mi' & -> & -> & Hv' & Hh' & Hmi' & ->).
  pose proof Hv as (Hy & Hm & Hd). pose proof Hv' as (Hy' & Hm' & Hd').
  pose proof (days_in_month_range y m Hm). pose proof (days_in_month_range y' m' Hm').
  unfold grib_seconds.
  destruct Hlt as [Hlt|[Heq Hlt]].
  - assert (ymd2ord y m d < ymd2ord y' m' d').
    { apply ymd2ord_lt; auto. lia. }
    lia.
  - assert (y = y' /\ m = m' /\ d = d') as (-> & -> & ->) by lia. lia.
Qed.

Lemma from_grib_date_time_inj : forall d1 t1 d2 t2 s,
  from_grib_date_time d1 t1 = Ok s -> from_grib_date_time d2 t2 = Ok s ->
  d1 = d2 /\ t1 = t2.
Proof.
  intros d1 t1 d2 t2 s H1 H2.
  destruct (Z.lt_trichotomy d1 d2) as [Hd|[Hd|Hd]].
  - pose proof (from_grib_date_time_lt _ _ _ _ _ _ H1 H2 (or_introl Hd)). lia.
  - subst d2. destruct (Z.lt_trichotomy t1 t2) as [Ht|[Ht|Ht]]; [|auto|].
    + pose proof (from_grib_date_time_lt _ _ _ _ _ _ H1 H2 (or_intror (conj eq_refl Ht))). lia.
    + pose proof (from_grib_date_time_lt _ _ _ _ _ _ H2 H1 (or_intror (conj eq_refl Ht))). lia.
  - pose proof (from_grib_date_time_lt _ _ _ _ _ _ H2 H1 (or_introl Hd)). lia.
Qed.

(** X1: [from_grib_date_time date time] succeeds exactly when [date] spells [YYYYMMDD] and [time] spells [HHMM] with a valid Gregorian date in years 1..9999, an hour 0..23 and a minute 0..59, and then returns the seconds since 1970-01-01T00:00. Otherwise it raises [OverflowError] when [date // 10000] or [time // 100] does not fit a C int, and [ValueError] in every other case. *)
Theorem from_grib_date_time_decode : forall date time,
  (forall s, from_grib_date_time date time = Ok s <->
     exists y m d h mi,
       date = 10000 * y + 100 * m + d /\ time = 100 * h + mi
       /\ valid_date y m d /\ 0 <= h <= 23 /\ 0 <= mi <= 59
       /\ s = grib_seconds y m d h mi)
  /\ (from_grib_date_time date time = Err OverflowError <->
      ~ c_int (date / 10000) \/ ~ c_int (time / 100))
  /\ ((exists s, from_grib_date_time date time = Ok s)
      \/ from_grib_date_time date time = Err ValueError
      \/ from_grib_date_time date time = Err OverflowError).
Proof.
  intros date time. split; [intro s; apply from_grib_date_time_iff|].
  split; [apply from_grib_date_time_overflow|apply from_grib_date_time_err].
Qed.

(** X2: on the pairs it accepts, [from_grib_date_time] is strictly increasing in [(date, time)] ordered by date, then time; hence two accepted pairs with the same seconds are equal. *)
Theorem from_grib_date_time_order : forall d1 t1 s1 d2 t2 s2,
  from_grib_date_time d1 t1 = Ok s1 -> from_grib_date_time d2 t2 = Ok s2 ->
  ((d1 < d2 \/ (d1 = d2 /\ t1 < t2)) -> s1 < s2) /\ (s1 = s2 -> d1 = d2 /\ t1 = t2).
Proof.
  intros d1 t1 s1 d2 t2 s2 H1 H2. split.
  - exact (from_grib_date_time_lt _ _ _ _ _ _ H1 H2).
  - intros <-. exact (from_grib_date_time_inj _ _ _ _ _ H1 H2).
Qed.


Lemma od_get_some_in : forall {K V} (keqb : K -> K -> bool),
    (forall a b, keqb a b = true <-> a = b) ->
    forall (d : list (K * V)) k v, od_get keqb k d = Some v -> In (k, v) d.
Proof.
  intros K V keqb Hspec d. induction d as [|[k' v'] r IH]; intros k v H; simpl in *; [discriminate|].
  destruct (keqb k k') eqn:E.
  - apply Hspec in E. subst. injection H as ->. auto.
  - right. now apply IH.
Qed.

Lemma in_od_set : forall {K V} (keqb : K -> K -> bool),
    (forall a b, keqb a b = true <-> a = b) ->
    forall (d : list (K * V)) k v k0 v0,
    In (k, v) (od_set keqb k0 v0 d) -> In (k, v) d \/ (k, v) = (k0, v0).
Proof.
  intros K V keqb Hspec d. induction d as [|[k' v'] r IH]; intros k v k0 v0 H; simpl in *.
  - destruct H as [H|[]]. auto.
  - destruct (keqb k0 k') eqn:E; simpl in H.
    + apply Hspec in E. subst k'. destruct H as [H|H]; [injection H as <- <-; auto|auto].
    + destruct H as [H|H]; [auto|]. destruct (IH _ _ _ _ H); auto.
Qed.

Lemma from_grib_value_inj : forall d1 t1 d2 t2 s,
  from_grib_value d1 t1 = Ok s -> from_grib_value d2 t2 = Ok s -> d1 = d2 /\ t1 = t2.
Proof.
  intros a b c e s H1 H2. destruct a, b, c, e; simpl in *; try discriminate.
  destruct (from_grib_date_time_inj _ _ _ _ _ H1 H2). subst. auto.
Qed.

Definition decodes (rev : list (Z * (value * value))) : Prop :=
  forall s date time, In (s, (date, time)) rev -> from_grib_value date time = Ok s.

Lemma od_set_decodes : forall rev s date time,
  decodes rev -> from_grib_value date time = Ok s ->
  decodes (od_set Z.eqb s (date, time) rev).
Proof.
  intros rev s date time Hd Hs s' d' t' Hin.
  destruct (in_od_set Z.eqb Z.eqb_eq _ _ _ _ _ Hin) as [H|H]; [now apply Hd|].
  injection H as -> -> ->. exact Hs.
Qed.

Lemma od_set_keeps_lookup : forall rev s date time s' v,
  decodes rev -> from_grib_value date time = Ok s ->
  od_get Z.eqb s' rev = Some v -> od_get Z.eqb s' (od_set Z.eqb s (date, time) rev) = Some v.
Proof.
  intros rev s date time s' [d' t'] Hd Hs Hget.
  destruct (Z.eq_dec s' s) as [->|Hne].
  - rewrite (od_get_set_eq Z.eqb Z.eqb_eq).
    apply (od_get_some_in Z.eqb Z.eqb_eq) in Hget. apply Hd in Hget.
    destruct (from_grib_value_inj _ _ _ _ _ Hs Hget) as [-> ->]. reflexivity.
  - rewrite (od_get_set_neq Z.eqb Z.eqb_eq) by exact Hne. exact Hget.
Qed.

Lemma date_time_loop_inv : forall idate itime l data rev data' rev',
  date_time_loop idate itime l data rev = Ok (data', rev') ->
  map fst rev = data -> NoDup data -> decodes rev ->
  map fst rev' = data' /\ NoDup data' /\ decodes rev'
  /\ (forall s v, od_get Z.eqb s rev = Some v -> od_get Z.eqb s rev' = Some v)
  /\ (forall hv offs, In (hv, offs) l ->
        exists date time s, nth_error hv idate = Some date /\ nth_error hv itime = Some time
          /\ from_grib_value date time = Ok s /\ od_get Z.eqb s rev' = Some (date, time)).
Proof.
  intros idate itime l. induction l as [|[hv offs] rest IH]; intros data rev data' rev' H Hk Hnd Hd;
    simpl in H.
  - injection H as <- <-. repeat split; auto. intros ? ? [].
  - inv_ok H. unfold tuple_get in E, E0.
    destruct (nth_error hv idate) as [date|] eqn:Ed; [|discriminate]. injection E as <-.
    destruct (nth_error hv itime) as [time|] eqn:Et; [|discriminate]. injection E0 as <-.
    set (rev1 := od_set Z.eqb a1 (date, time) rev) in H.
    assert (Hk1 : map fst rev1 = (if existsb (Z.eqb a1) data then data else data ++ [a1])).
    { unfold rev1. rewrite (od_set_keys Z.eqb), Hk. reflexivity. }
    assert (Hnd1 : NoDup (if existsb (Z.eqb a1) data then data else data ++ [a1])).
    { rewrite <- Hk1. unfold rev1. apply (od_set_nodup Z.eqb Z.eqb_eq). now rewrite Hk. }
    assert (Hd1 : decodes rev1) by (apply od_set_decodes; assumption).
    destruct (IH _ _ _ _ H Hk1 Hnd1 Hd1) as (Hk' & Hnd' & Hd' & Hkeep & Hcov).
    repeat split; try assumption.
    + intros s v Hget. apply Hkeep. unfold rev1. now apply od_set_keeps_lookup.
    + intros hv' offs' [Heq|Hin]; [|exact (Hcov _ _ Hin)].
      injection Heq as <- <-. exists date, time, a1. repeat split; try assumption.
      apply Hkeep. unfold rev1. apply (od_get_set_eq Z.eqb Z.eqb_eq).
Qed.

Lemma str_index_none : forall k l, str_index k l = None <-> ~ In k l.
Proof.
  intros k l. induction l as [|x r IH]; simpl; [tauto|].
  destruct (String.eqb_spec x k) as [->|Hne].
  - split; [discriminate|]. intro H. exfalso. apply H. now left.
  - destruct (str_index k r) eqn:E.
    + split; [discriminate|]. intro H. exfalso. apply H. right.
      destruct (in_dec string_dec k r) as [Hi|Hi]; [exact Hi|].
      apply IH in Hi. discriminate.
    + split; [|reflexivity]. intros _ [H|H]; [congruence|]. exact (proj1 IH eq_refl H).
Qed.

Lemma str_index_some : forall k l i, str_index k l = Some i -> nth_error l i = Some k.
Proof.
  intros k l. induction l as [|x r IH]; intros i H; simpl in H; [discriminate|].
  destruct (String.eqb_spec x k) as [->|Hne]; [now injection H as <-|].
  destruct (str_index k r) eqn:E; [|discriminate]. injection H as <-. simpl. now apply IH.
Qed.

(** X3: on success, [data_date_time] returns distinct seconds, the keys of the reverse index in the same order; every reverse-index entry decodes back to its key, and every header of the index has its decoded seconds in [data] with its own [(date, time)] in the reverse index. *)
Theorem data_date_time_reverse_index : forall idx data attrs rev,
  data_date_time idx = Ok (data, attrs, rev) ->
  NoDup data /\ map fst rev = data
  /\ (forall s date time, od_get Z.eqb s rev = Some (date, time) -> from_grib_value date time = Ok s)
  /\ (forall i j hv offs,
        str_index "dataDate" (index_keys idx) = Some i ->
        str_index "dataTime" (index_keys idx) = Some j ->
        In (hv, offs) (offsets idx) ->
        exists date time s, nth_error hv i = Some date /\ nth_error hv j = Some time
          /\ from_grib_value date time = Ok s /\ In s data
          /\ od_get Z.eqb s rev = Some (date, time)).
Proof.
  intros idx data attrs rev H. unfold data_date_time, key_position in H. inv_ok H.
  destruct (str_index "dataDate" (index_keys idx)) as [i|] eqn:Ei; [|discriminate].
  destruct (str_index "dataTime" (index_keys idx)) as [j|] eqn:Ej; [|discriminate].
  injection E as <-. injection E0 as <-. destruct a1 as [data' rev'].
  injection H as <- <- <-. simpl.
  destruct (date_time_loop_inv _ _ _ _ _ _ _ E1 eq_refl (NoDup_nil _) ltac:(intros ? ? ? []))
    as (Hk & Hnd & Hd & _ & Hcov).
  repeat split; try assumption.
  - intros s date time Hget. apply Hd. now apply (od_get_some_in Z.eqb Z.eqb_eq).
  - intros i' j' hv offs Ei' Ej' Hin. injection Ei' as <-. injection Ej' as <-.
    destruct (Hcov hv offs Hin) as (date & time & s & H1 & H2 & H3 & H4).
    exists date, time, s. repeat split; try assumption.
    rewrite <- Hk. apply (od_get_in Z.eqb Z.eqb_eq). congruence.
Qed.

(** X4: an index whose keys lack ['dataDate'] or ['dataTime'] makes [data_date_time] raise [ValueError]. *)
Theorem data_date_time_missing_key : forall idx,
  ~ In "dataDate" (index_keys idx) \/ ~ In "dataTime" (index_keys idx) ->
  data_date_time idx = Err ValueError.
Proof.
  intros idx Hm. unfold data_date_time, key_position.
  destruct Hm as [Hm|Hm]; apply str_index_none in Hm.
  - now rewrite Hm.
  - destruct (str_index "dataDate" (index_keys idx)); simpl; [|reflexivity]. now rewrite Hm.
Qed.

End DateTimeFacts.

(** ** DataVariable coordinates *)
Lemma DataVariable_coordinates_inv : forall idx stream dv,
    DataVariable idx stream = Ok dv ->
    exists coords base lat lon,
      coordinates_loop idx HEADER_COORDINATES_MAP [] = Ok coords
      /\ dv_attributes dv =
         od_set String.eqb "coordinates" (VStr (join " " (map fst coords) ++ " lat lon")) base
      /\ dv_coordinates dv = od_set String.eqb "lon" lon (od_set String.eqb "lat" lat coords).
Proof.
  intros idx stream dv H. unfold DataVariable in H. inv_ok H. injection H as <-. simpl.
  do 4 eexists. split; [exact E3|]. split; reflexivity.
Qed.

Lemma coordinates_loop_retained : forall idx coords,
    coordinates_loop idx HEADER_COORDINATES_MAP [] = Ok coords ->
    map fst coords = retained_coordinates idx.
Proof.
  intros idx coords Hc.
  assert (Hs := coordinates_loop_sizes idx _ [] coords Hc header_coordinates_nodup
                  (fun k _ H => H)).
  replace (map fst coords) with (map fst (map size_entry coords)) by (rewrite map_map; reflexivity).
  rewrite Hs. simpl app. rewrite map_map. apply map_id.
Qed.

Lemma retained_not_lat_lon : forall idx k,
    In k (retained_coordinates idx) -> k <> "lat" /\ k <> "lon".
Proof.
  intros idx k H. unfold retained_coordinates in H. apply filter_In in H.
  destruct (header_coordinate_not_lat_lon_i k (proj1 H)) as (H1 & H2 & _). auto.
Qed.

Lemma DataVariable_coordinate_keys : forall idx stream dv,
    DataVariable idx stream = Ok dv ->
    map fst (dv_coordinates dv) = retained_coordinates idx ++ ["lat"; "lon"]
    /\ od_get String.eqb "coordinates" (dv_attributes dv) =
       Some (VStr (join " " (retained_coordinates idx) ++ " lat lon")).
Proof.
  intros idx stream dv H.
  destruct (DataVariable_coordinates_inv idx stream dv H) as (coords & base & lat & lon & Hc & Ha & Hk).
  pose proof (coordinates_loop_retained idx coords Hc) as Hr.
  split.
  - rewrite Hk.
    rewrite (od_set_notin String.eqb String.eqb_eq coords "lat" lat)
      by (rewrite Hr; intro Hin; exact (proj1 (retained_not_lat_lon idx _ Hin) eq_refl)).
    rewrite (od_set_notin String.eqb String.eqb_eq _ "lon" lon).
    + rewrite !map_app, Hr. simpl. rewrite <- app_assoc. reflexivity.
    + rewrite map_app, Hr. simpl. rewrite in_app_iff. simpl.
      intros [Hin|[Hin|[]]]; [exact (proj2 (retained_not_lat_lon idx _ Hin) eq_refl)|discriminate].
  - rewrite Ha, (od_get_set_eq String.eqb String.eqb_eq), Hr. reflexivity.
Qed.

Lemma string_append_assoc : forall a b c : string,
    ((a ++ b) ++ c)%string = (a ++ (b ++ c))%string.
Proof. induction a as [|ch a IH]; intros b c; simpl; [reflexivity|]. now rewrite IH. Qed.

Lemma join_lat_lon : forall l, l <> [] ->
    join " " (l ++ ["lat"; "lon"]) = (join " " l ++ " lat lon")%string.
Proof.
  induction l as [|x [|y r] IH]; intro Hne; [contradiction| reflexivity|].
  change (join " " ((x :: y :: r) ++ ["lat"; "lon"]))
    with (x ++ " " ++ join " " ((y :: r) ++ ["lat"; "lon"]))%string.
  rewrite IH by discriminate.
  change (join " " (x :: y :: r)) with (x ++ " " ++ join " " (y :: r))%string.
  rewrite !string_append_assoc. reflexivity.
Qed.

(** X5: the coordinates of a [DataVariable] are the retained header coordinates in [HEADER_COORDINATES_MAP] order, then ['lat'] and ['lon']; its ['coordinates'] attribute is the retained names joined by spaces followed by [' lat lon'], which is the space-joined list of its coordinate names whenever some header coordinate is retained. *)
Theorem DataVariable_coordinates_attribute : forall idx stream dv,
    DataVariable idx stream = Ok dv ->
    map fst (dv_coordinates dv) = retained_coordinates idx ++ ["lat"; "lon"]
    /\ od_get String.eqb "coordinates" (dv_attributes dv) =
       Some (VStr (join " " (retained_coordinates idx) ++ " lat lon"))
    /\ (retained_coordinates idx <> [] ->
        od_get String.eqb "coordinates" (dv_attributes dv) =
        Some (VStr (join " " (map fst (dv_coordinates dv))))).
Proof.
  intros idx stream dv H.
  destruct (DataVariable_coordinate_keys idx stream dv H) as [Hk Ha].
  split; [exact Hk|]. split; [exact Ha|].
  intro Hne. rewrite Ha, Hk, join_lat_lon by exact Hne. reflexivity.
Qed.

(** ** Row lengths of the built array *)

(** X6: every row of an array returned by [build_array] has as many values as the last entry of the variable's shape ([numberOfPoints]); and if the first record of a bucket of the index has a payload whose length is neither 1 nor that last entry, [build_array] returns no array. *)
Theorem build_array_row_length :
    (forall dv arr, build_array dv = Ok arr ->
       forall q, List.length (arr q) = Z.to_nat (last (dv_shape dv) 0%Z))
    /\ (forall dv h o offs msg,
          In (h, o :: offs) (offsets (dv_index dv)) ->
          message_fromfile (dv_stream dv) o = Ok msg ->
          List.length (m_values msg) <> 1 ->
          List.length (m_values msg) <> Z.to_nat (last (dv_shape dv) 0%Z) ->
          forall arr, build_array dv <> Ok arr).
Proof.
  split; [exact build_array_rows_length|].
  intros dv h o offs msg Hin Hmsg H1 H2 arr Harr.
  destruct (trailing_size dv) as [n|e] eqn:Hn.
  - assert (n = Z.to_nat (last (dv_shape dv) 0%Z)) as ->.
    { unfold trailing_size in Hn. destruct (Z.ltb _ 0); [discriminate|]. now injection Hn as <-. }
    exact (build_array_payload_mismatch dv _ h o offs msg arr Hn Hin Hmsg H1 H2 Harr).
  - unfold build_array in Harr. rewrite Hn in Harr. discriminate.
Qed.

(** ** [Variable.__eq__] *)
Lemma forall2b_refl : forall {A} (f : A -> A -> bool) l,
    (forall x, In x l -> f x x = true) -> forall2b f l l = true.
Proof.
  intros A f l. induction l as [|x r IH]; intro H; simpl; [reflexivity|].
  rewrite H by (left; reflexivity). apply IH. intros y Hy. apply H. now right.
Qed.

Lemma forall2b_refl_false : forall {A} (f : A -> A -> bool) l,
    forall2b f l l = false -> exists x, In x l /\ f x x = false.
Proof.
  intros A f l. induction l as [|x r IH]; intro H; simpl in H; [discriminate|].
  destruct (f x x) eqn:E; simpl in H.
  - destruct (IH H) as [y [Hy Ey]]. exists y. split; [now right|exact Ey].
  - exists x. split; [now left|exact E].
Qed.

Lemma SFeqb_refl_iff : forall x, SFeqb x x = false <-> x = S754_nan.
Proof.
  intros [s|s| |s m e]; unfold SFeqb, SFcompare; split; intro H; try discriminate; try reflexivity.
  - destruct s; discriminate.
  - destruct s; rewrite Z.compare_refl, Pos.compare_cont_refl in H; discriminate.
Qed.

(** X8: [Variable.__eq__] compares a variable with itself as unequal exactly when its data is a float array holding a NaN. *)
Theorem variable_eqb_self : forall v,
    variable_eqb v v = false <-> exists xs, v_data v = CFloats xs /\ In S754_nan xs.
Proof.
  intros [dims d attrs]. unfold variable_eqb, strings_eqb, attributes_eqb; simpl.
  rewrite (forall2b_refl String.eqb dims) by (intros; apply String.eqb_refl).
  rewrite (forall2b_refl _ attrs)
    by (intros; rewrite String.eqb_refl, value_eqb_refl; reflexivity).
  simpl. split.
  - destruct d as [vs|v|xs]; simpl; intro H.
    + rewrite forall2b_refl in H by (intros; apply value_eqb_refl). discriminate.
    + rewrite value_eqb_refl in H. discriminate.
    + destruct (forall2b_refl_false _ _ H) as [x [Hx Ex]].
      apply SFeqb_refl_iff in Ex. subst x. now exists xs.
  - intros [xs [-> Hin]]. simpl.
    destruct (forall2b SFeqb xs xs) eqn:E; [|reflexivity].
    assert (forall x y, forall2b SFeqb (x :: y) (x :: y) = true -> SFeqb x x = true) as _ by
      (intros x y Hxy; simpl in Hxy; now apply andb_true_iff in Hxy).
    clear -E Hin. induction xs as [|x r IH]; [contradiction|].
    simpl in E. apply andb_true_iff in E as [E1 E2]. destruct Hin as [->|Hin].
    + discriminate.
    + now apply IH.
Qed.

(** ** An empty stream *)
Lemma index_get_empty : forall keys k,
    index_get {| index_keys := keys; offsets := [] |} k = [].
Proof. intros keys k. unfold index_get. simpl. now destruct (str_index k keys). Qed.

Lemma enforce_unique_loop_empty : forall keys ak acc,
    enforce_unique_loop {| index_keys := keys; offsets := [] |} ak acc = Ok acc.
Proof.
  intros keys ak. induction ak as [|k r IH]; intro acc; simpl; [reflexivity|].
  rewrite index_get_empty. apply IH.
Qed.

(** X9: on an empty stream [build_dataset_components] returns no dimensions, no variables and only the ['eccodesGribVersion'] attribute. *)
Theorem build_dataset_components_nil : forall gk version,
    build_dataset_components [] gk version = Ok ([], [], [("eccodesGribVersion", VStr version)]).
Proof.
  intros gk version. unfold build_dataset_components, index_fromstream. cbn [fold_left].
  rewrite !index_get_empty. simpl.
  unfold enforce_unique_attributes. rewrite enforce_unique_loop_empty. reflexivity.
Qed.

(** ** Coordinates of mixed integer and string values *)
Lemma coordinates_loop_keeps : forall idx m acc r k,
    coordinates_loop idx m acc = Ok r -> ~ In k (map fst m) ->
    od_get String.eqb k r = od_get String.eqb k acc.
Proof.
  intros idx m. induction m as [|[key ak] rest IH]; intros acc r k H Hk; simpl in H.
  - now injection H as <-.
  - simpl in Hk.
    destruct (simple_header_coordinate idx key ak) as [[values attrs]|[]] eqn:E;
      try discriminate.
    + rewrite (IH _ _ _ H) by tauto.
      apply (od_get_set_neq String.eqb String.eqb_eq). intro; subst; tauto.
    + apply (IH _ _ _ H). tauto.
Qed.

Lemma length_np_array : forall vs, List.length (np_array vs) = List.length vs.
Proof.
  intro vs. unfold np_array.
  destruct (forallb is_int vs || forallb (fun v => negb (is_int v)) vs); [reflexivity|].
  apply length_map.
Qed.

Lemma coordinates_loop_array : forall idx m acc r k,
    coordinates_loop idx m acc = Ok r -> NoDup (map fst m) ->
    In k (map fst m) -> 1 < List.length (index_get idx k) ->
    exists c, od_get String.eqb k r = Some c /\ v_data c = CArray (np_array (index_get idx k)).
Proof.
  intros idx m. induction m as [|[key ak] rest IH]; intros acc r k H Hnd Hk Hlen; simpl in *;
    [contradiction|].
  inversion Hnd as [|? ? Hnotin Hnd']; subst.
  destruct (simple_header_coordinate idx key ak) as [[values attrs]|e] eqn:E.
  - destruct Hk as [<-|Hk]; [|exact (IH _ _ _ H Hnd' Hk Hlen)].
    destruct (simple_header_coordinate_ok _ _ _ _ _ E) as [-> _].
    rewrite (coordinates_loop_keeps _ _ _ _ _ H Hnotin).
    rewrite (od_get_set_eq String.eqb String.eqb_eq).
    destruct (Nat.eqb_spec (List.length (index_get idx key)) 1); [lia|].
    eexists. split; reflexivity.
  - destruct e; try discriminate.
    destruct Hk as [<-|Hk]; [|exact (IH _ _ _ H Hnd' Hk Hlen)].
    apply simple_header_coordinate_cnf_iff in E. rewrite E in Hlen. simpl in Hlen. lia.
Qed.

Lemma fold_append_unique_in : forall l acc v,
    In v (fold_left append_unique l acc) -> In v acc \/ In v l.
Proof.
  induction l as [|x r IH]; intros acc v H; simpl in H; [now left|].
  destruct (IH _ _ H) as [Hin|Hin]; [|right; now right].
  unfold append_unique in Hin. destruct (existsb (value_eqb x) acc); [now left|].
  apply in_app_iff in Hin. destruct Hin as [Hin|[<-|[]]]; [now left|right; now left].
Qed.

Lemma index_get_in : forall idx k v,
    In v (index_get idx k) ->
    exists i b, str_index k (index_keys idx) = Some i /\ In b (offsets idx) /\ nth i (fst b) undef = v.
Proof.
  intros idx k v H. unfold index_get in H.
  destruct (str_index k (index_keys idx)) as [i|]; [|contradiction].
  destruct (fold_append_unique_in _ _ _ H) as [[]|Hin].
  apply in_map_iff in Hin. destruct Hin as [b [Hb Hin]]. eauto.
Qed.

Lemma mapM_ok_in : forall {A B} (f : A -> result B) l ys x,
    mapM f l = Ok ys -> In x l -> exists y, f x = Ok y.
Proof.
  intros A B f l. induction l as [|a r IH]; intros ys x H Hx; simpl in *; [contradiction|].
  inv_ok H. destruct Hx as [<-|Hx]; [eauto|]. exact (IH _ _ E0 Hx).
Qed.

Lemma list_index_in : forall v l i, list_index v l = Ok i -> In v l.
Proof.
  intros v l. induction l as [|x r IH]; intros i H; simpl in H; [discriminate|].
  destruct (value_eqb x v) eqn:E.
  - apply value_eqb_spec in E. subst. now left.
  - inv_ok H. right. exact (IH _ E0).
Qed.

Lemma np_array_mixed : forall vs z s z',
    In (VInt z) vs -> In (VStr s) vs -> ~ In (VInt z') (np_array vs).
Proof.
  intros vs z s z' Hz Hs. unfold np_array.
  destruct (forallb is_int vs) eqn:E1.
  { rewrite forallb_forall in E1. specialize (E1 _ Hs). discriminate. }
  destruct (forallb (fun v => negb (is_int v)) vs) eqn:E2.
  { rewrite forallb_forall in E2. specialize (E2 _ Hz). discriminate. }
  simpl. intro H. apply in_map_iff in H. destruct H as [? [H _]]. discriminate.
Qed.

Lemma two_members_length : forall {A} (l : list A) a b, In a l -> In b l -> a <> b -> 1 < List.length l.
Proof.
  intros A l a b Ha Hb Hne. destruct l as [|x [|y r]]; simpl in *; try contradiction; [|lia].
  destruct Ha as [<-|[]]. destruct Hb as [<-|[]]. contradiction.
Qed.

Lemma fill_ok_header : forall dv n l a af h offs,
    fill dv n a l = Ok af -> In (h, offs) l -> exists p, header_indexes dv h = Ok p.
Proof.
  intros dv n l. induction l as [|[h' offs'] rest IH]; intros a af h offs H Hin; simpl in *;
    [contradiction|].
  inv_ok H. destruct Hin as [E'|Hin].
  - injection E' as <- <-. eauto.
  - exact (IH _ _ _ _ H Hin).
Qed.

(** X7: when a header coordinate of a [DataVariable] has both an integer and a string value in the index, [build_array] never succeeds: numpy turns the coordinate into a string array, so [.index] of the integer header value raises. *)
Theorem build_array_mixed_coordinate : forall idx stream dv d z s,
    DataVariable idx stream = Ok dv ->
    In d (map fst HEADER_COORDINATES_MAP) ->
    In (VInt z) (index_get idx d) -> In (VStr s) (index_get idx d) ->
    forall arr, build_array dv <> Ok arr.
Proof.
  intros idx stream dv d z s Hdv Hd Hz Hs arr Harr.
  destruct (DataVariable_inv idx stream dv Hdv)
    as (leader & rest & coords & sizes & n & attrs & _ & Hc & Hidx & _ & Hdims & _ & _ & _ & Hcoords & _).
  assert (Hlen : 1 < List.length (index_get idx d))
    by (apply (two_members_length _ _ _ Hz Hs); discriminate).
  destruct (coordinates_loop_array _ _ _ _ _ Hc header_coordinates_nodup Hd Hlen) as [c [Hgc Hdc]].
  destruct (index_get_in _ _ _ Hz) as (i & b & Hi & Hb & Hnth).
  destruct (build_array_inv dv arr Harr) as (n' & data & _ & Hf & _).
  rewrite Hidx in Hf.
  destruct b as [h offs].
  assert (Hb' : In (h, offs) (sort_buckets (offsets idx)))
    by (apply (Permutation_in _ (Permutation_sym (sort_buckets_perm _))); exact Hb).
  destruct (fill_ok_header _ _ _ _ _ _ _ Hf Hb') as [p Hp].
  assert (Hdim : In d (removelast (dv_dimensions dv))).
  { rewrite Hdims, removelast_last. apply in_map_iff. exists (d, c). split; [reflexivity|].
    apply filter_In. split; [exact (od_get_some_in String.eqb String.eqb_eq _ _ _ Hgc)|].
    unfold is_dimension. simpl. rewrite Hdc. simpl. rewrite length_np_array.
    now apply Nat.ltb_lt. }
  destruct (mapM_ok_in _ _ _ _ Hp Hdim) as [j Hj]. simpl in Hj.
  rewrite Hidx, Hi in Hj. simpl in Hj.
  destruct (header_coordinate_not_lat_lon_i d Hd) as (Hlat & Hlon & _).
  destruct Hcoords as (lat & lon & Hcoords). rewrite Hcoords in Hj.
  rewrite (od_get_set_neq String.eqb String.eqb_eq) in Hj by exact Hlon.
  rewrite (od_get_set_neq String.eqb String.eqb_eq) in Hj by exact Hlat.
  rewrite Hgc in Hj. simpl in Hj. rewrite Hdc in Hj. simpl in Hj.
  simpl in Hnth. rewrite Hnth in Hj.
  apply list_index_in in Hj. exact (np_array_mixed _ _ _ _ Hz Hs Hj).
Qed.

(** ** Witnesses on the sample streams *)

Lemma DataVariable_dimensions_shape_witness :
    DataVariable idx_two_dates stream_two_dates = Ok dv_two_dates
    /\ dv_dimensions dv_two_dates = varying_coordinates idx_two_dates ++ ["i"]
    /\ exists leader rest n,
         stream_two_dates = leader :: rest
         /\ message_get leader "numberOfPoints" = Ok (VInt n)
         /\ dv_shape dv_two_dates =
            map (fun k => Z.of_nat (List.length (index_get idx_two_dates k)))
                (varying_coordinates idx_two_dates) ++ [n].
Proof.
  assert (H : DataVariable idx_two_dates stream_two_dates = Ok dv_two_dates)
    by (vm_compute; reflexivity).
  split; [exact H|]. exact (DataVariable_dimensions_shape _ _ _ H).
Defined.


Lemma build_array_nan_and_missing_witness :
    build_array dv_sparse = Ok (materialised dv_sparse)
    /\ trailing_size dv_sparse = Ok 2
    /\ materialised dv_sparse [1; 1] = repeat S754_nan 2
    /\ nth_error (materialised dv_sparse [0; 0]) 1 = Some S754_nan.
Proof.
  assert (H1 : build_array dv_sparse = Ok (materialised dv_sparse))
    by (apply get_ok_ok; vm_compute; reflexivity).
  assert (H2 : trailing_size dv_sparse = Ok 2) by (vm_compute; reflexivity).
  destruct (build_array_nan_and_missing dv_sparse _ 2 H1 H2)
    as (Hun & _ & _ & _ & (placed & Hfill & Hnan & _) & _).
  split; [exact H1|]. split; [exact H2|]. split.
  - apply Hun. intros b p Hin Hp. vm_compute in Hin. destruct Hin as [<-|[<-|[<-|[]]]];
      vm_compute in Hp; injection Hp as <-; discriminate.
  - apply (Hnan [0; 0] 1 (to_float32 (f64 9999)) (int_to_float32 9999)).
    + vm_compute. reflexivity.
    + rewrite <- (get_ok_of_ok (np_full_nan 0) _ _ Hfill). vm_compute. reflexivity.
    + vm_compute. reflexivity.
Defined.

Lemma build_array_offset_order_witness :
    trailing_size dv_same_position = Ok 2
    /\ exists arr, build_array dv_same_position = Ok arr.
Proof.
  assert (H1 : trailing_size dv_same_position = Ok 2) by (vm_compute; reflexivity).
  split; [exact H1|].
  destruct (build_array_offset_order dv_same_position 2 H1) as [arr [Harr _]].
  - intros b Hin. vm_compute in Hin. destruct Hin as [<-|[<-|[]]].
    + exists [], (map to_float32 [f64 1; f64 2]). vm_compute. reflexivity.
    + exists [], (map to_float32 [f64 3; f64 4]). vm_compute. reflexivity.
  - exists arr. exact Harr.
Defined.

Lemma build_array_reads_first_offset_witness :
    build_array (with_stream dv_duplicate stream_duplicate_altered) = build_array dv_duplicate.
Proof.
  assert (H : DataVariable (subindex (index_fromstream stream_duplicate ALL_KEYS) "paramId" (VInt 130))
                           stream_duplicate = Ok dv_duplicate) by (vm_compute; reflexivity).
  refine (proj1 (build_array_reads_first_offset stream_duplicate (VInt 130) dv_duplicate
                   stream_duplicate_altered H _)).
  intros h o offs Hin. vm_compute in Hin.
  destruct Hin as [E|[E|[]]]; injection E as <- <- <-; vm_compute; reflexivity.
Defined.

Lemma data_cached_property_witness :
    data dv_two_dates initial_state = Ok (0, state_two_dates)
    /\ data dv_two_dates state_two_dates = Ok (0, state_two_dates).
Proof.
  assert (H : data dv_two_dates initial_state = Ok (0, state_two_dates)).
  { unfold data, initial_state. cbn [_data heap file_opens].
    rewrite (get_ok_ok (np_full_nan 0) (build_array dv_two_dates)) by (vm_compute; reflexivity).
    unfold state_two_dates, materialised. reflexivity. }
  split; [exact H|]. exact (proj1 (proj2 (data_cached_property _ _ _ _ H))).
Defined.

Lemma from_grib_date_time_order_witness :
    from_grib_date_time 20170101 1200 = Ok 1483272000%Z
    /\ from_grib_date_time 20170102 0 = Ok 1483315200%Z
    /\ (1483272000 < 1483315200)%Z.
Proof.
  assert (H1 : from_grib_date_time 20170101 1200 = Ok 1483272000%Z) by (vm_compute; reflexivity).
  assert (H2 : from_grib_date_time 20170102 0 = Ok 1483315200%Z) by (vm_compute; reflexivity).
  split; [exact H1|split; [exact H2|]].
  apply (proj1 (from_grib_date_time_order _ _ _ _ _ _ H1 H2)). left. lia.
Defined.

Lemma data_date_time_reverse_index_witness :
    data_date_time (index_fromstream stream_duplicate ALL_KEYS) =
      Ok ([1483272000; 1483358400]%Z, date_time_attributes,
          [(1483272000%Z, (VInt 20170101, VInt 1200)); (1483358400%Z, (VInt 20170102, VInt 1200))])
    /\ NoDup [1483272000; 1483358400]%Z.
Proof.
  assert (H : data_date_time (index_fromstream stream_duplicate ALL_KEYS) =
      Ok ([1483272000; 1483358400]%Z, date_time_attributes,
          [(1483272000%Z, (VInt 20170101, VInt 1200)); (1483358400%Z, (VInt 20170102, VInt 1200))]))
    by (vm_compute; reflexivity).
  split; [exact H|]. exact (proj1 (data_date_time_reverse_index _ _ _ _ H)).
Defined.

Lemma data_date_time_missing_key_witness :
    data_date_time (index_fromstream stream_two_dates ["paramId"; "dataTime"]) = Err ValueError.
Proof.
  apply data_date_time_missing_key. left. simpl. intros [H|[H|[]]]; discriminate.
Defined.

Lemma DataVariable_coordinates_attribute_witness :
    DataVariable (subindex (index_fromstream stream_two_dates ALL_KEYS) "paramId" (VInt 130))
                 stream_two_dates = Ok dv_two_dates
    /\ map fst (dv_coordinates dv_two_dates) =
       retained_coordinates (subindex (index_fromstream stream_two_dates ALL_KEYS) "paramId" (VInt 130))
       ++ ["lat"; "lon"].
Proof.
  assert (H : DataVariable (subindex (index_fromstream stream_two_dates ALL_KEYS) "paramId" (VInt 130))
                           stream_two_dates = Ok dv_two_dates) by (vm_compute; reflexivity).
  split; [exact H|]. exact (proj1 (DataVariable_coordinates_attribute _ _ _ H)).
Defined.

Lemma build_array_row_length_witness :
    build_array dv_two_dates = Ok (materialised dv_two_dates)
    /\ (forall q, List.length (materialised dv_two_dates q) = 2)
    /\ forall arr, build_array dv_bad_length <> Ok arr.
Proof.
  assert (H : build_array dv_two_dates = Ok (materialised dv_two_dates))
    by (apply get_ok_ok; vm_compute; reflexivity).
  split; [exact H|]. split.
  - intro q. rewrite (proj1 build_array_row_length _ _ H q). vm_compute. reflexivity.
  - apply (proj2 build_array_row_length dv_bad_length (fst (first_bucket dv_bad_length)) 0%Z []
             (with_key "numberOfPoints" (VInt 3)
                (sample_message 0 130 "t" 20170101 0 [f64 1; f64 2])));
      [vm_compute; left; reflexivity|vm_compute; reflexivity|vm_compute; discriminate..].
Defined.

Lemma build_array_mixed_coordinate_witness :
    DataVariable idx_mixed_level stream_mixed_level = Ok dv_mixed_level
    /\ In (VInt 500) (index_get idx_mixed_level "topLevel")
    /\ In (VStr "sfc") (index_get idx_mixed_level "topLevel")
    /\ forall arr, build_array dv_mixed_level <> Ok arr.
Proof.
  assert (H : DataVariable idx_mixed_level stream_mixed_level = Ok dv_mixed_level)
    by (vm_compute; reflexivity).
  assert (Hz : In (VInt 500) (index_get idx_mixed_level "topLevel")) by (vm_compute; auto).
  assert (Hs : In (VStr "sfc") (index_get idx_mixed_level "topLevel")) by (vm_compute; auto).
  split; [exact H|split; [exact Hz|split; [exact Hs|]]].
  apply (build_array_mixed_coordinate _ _ _ "topLevel" 500%Z "sfc" H); [simpl; tauto|exact Hz|exact Hs].
Defined.
